(** * Text converter: unescaping of field bytes and generation of the
      per-slot [WriteSlot] routine.

    Shallow embedding of [be/src/exec/text-converter.cc].

    - the three-argument [TextConverter::UnescapeString] is a loop
      over the source range with one boolean flag and a destination
      cursor; it is modelled on an explicit destination buffer whose
      writes are bounds checked.
    - [TextConverter::CodegenWriteSlot] drives an IR builder; the builder
      calls are modelled as operations on a builder state, the emitted
      routine is a list of basic blocks, and a small interpreter gives the
      routine its run-time meaning. *)

From Stdlib Require Import ZArith Lia.
From Stdlib.Strings Require Import Byte.
From stdpp Require Import base list strings.

Open Scope Z_scope.

(** ** Machine integers *)

Definition INT_MAX : Z := 2147483647.

(** Conversion of a pointer difference to [int] (two's complement
    wrap-around to 32 bits), as in [*len = dest_ptr - dest_start]. *)
Definition to_int (z : Z) : Z := (z + 2147483648) mod 4294967296 - 2147483648.

#[global] Instance byte_eq_decision : EqDecision byte := Byte.byte_eq_dec.

(** ** The unescaper *)

(** Loop state of [UnescapeString]: the destination storage, the cursor
    [dest_ptr] (as an offset from [dest]) and the flag. The source cursor
    is the list that remains to be read, [end] is its end. *)
Record UnescapeState : Type := MkUnescapeState {
  dest : list byte;
  dest_ptr : nat;
  escape_next_char : bool
}.

(** [*dest_ptr++ = c]: a write outside the destination storage has no
    defined behaviour and is reported as [None]. *)
Definition write_dest (st : UnescapeState) (c : byte) (flag : bool)
  : option UnescapeState :=
  if decide (dest_ptr st < length (dest st))%nat
  then Some (MkUnescapeState (<[dest_ptr st := c]> (dest st))
                             (S (dest_ptr st)) flag)
  else None.

(** One iteration of the [while (src < end)] loop on the byte [*src]. *)
Definition UnescapeString_step (escape_char_ : byte) (c : byte)
    (st : UnescapeState) : option UnescapeState :=
  let flag :=
    if Byte.eqb c escape_char_
    then negb (escape_next_char st)
    else false in
  if flag
  then Some (MkUnescapeState (dest st) (dest_ptr st) flag)
  else write_dest st c flag.

(** The loop: every iteration advances [src] by one, so the remaining
    source range is the structural measure. *)
Fixpoint UnescapeString_loop (escape_char_ : byte) (src : list byte)
    (st : UnescapeState) : option UnescapeState :=
  match src with
  | [] => Some st
  | c :: src' =>
      match UnescapeString_step escape_char_ c st with
      | Some st' => UnescapeString_loop escape_char_ src' st'
      | None => None
      end
  end.

(** [UnescapeString(src, dest, len)]: [src] is the range of [*len] bytes
    that is read ([*len] is an [int], so the range holds at most
    [INT_MAX] bytes), [dest_buf] the caller's storage. The result is the
    storage after the call and the new [*len]. *)
Definition UnescapeString (escape_char_ : byte) (src : list byte)
    (dest_buf : list byte) : option (list byte * Z) :=
  match UnescapeString_loop escape_char_ src
          (MkUnescapeState dest_buf 0 false) with
  | Some st => Some (dest st, to_int (Z.of_nat (dest_ptr st)))
  | None => None
  end.

(** The bytes a caller reads back: the first [newLen] bytes of [dest]. *)
Definition unescaped (r : list byte * Z) : list byte :=
  take (Z.to_nat (snd r)) (fst r).

(** The overload of [UnescapeString] on a [StringValue] and a [MemPool]:
    the pool hands out [value->len] bytes of unspecified content
    ([fresh]), the bytes are unescaped into them and the value is
    redirected. A [StringValue] is represented by the bytes it points to
    and its [len]. *)
Definition UnescapeStringValue (escape_char_ : byte)
    (value : list byte) (fresh : list byte) : option (list byte * Z) :=
  if decide (length fresh = length value)
  then UnescapeString escape_char_ value fresh
  else None.

(** *** Pure reading of the loop, used to reason about it *)

(** Bytes emitted from a given flag, and the flag at the end. *)
Fixpoint emitted (escape_char_ : byte) (flag : bool) (src : list byte)
  : list byte :=
  match src with
  | [] => []
  | c :: src' =>
      let flag' := if Byte.eqb c escape_char_ then negb flag else false in
      if flag' then emitted escape_char_ flag' src'
      else c :: emitted escape_char_ flag' src'
  end.

Fixpoint flag_after (escape_char_ : byte) (flag : bool) (src : list byte)
  : bool :=
  match src with
  | [] => flag
  | c :: src' =>
      flag_after escape_char_
        (if Byte.eqb c escape_char_ then negb flag else false) src'
  end.

(** ** Logical types, descriptors and external collaborators *)

(** Modelled from the spec: the enumeration of logical slot types is
    declared in the runtime headers, not in this file. The eight types
    the generator names are listed with their source names; the others
    stand for the spec's "or other". *)
Inductive PrimitiveType : Type :=
  | INVALID_TYPE
  | TYPE_BOOLEAN
  | TYPE_TINYINT
  | TYPE_SMALLINT
  | TYPE_INT
  | TYPE_BIGINT
  | TYPE_FLOAT
  | TYPE_DOUBLE
  | TYPE_DATE
  | TYPE_DATETIME
  | TYPE_TIMESTAMP
  | TYPE_STRING.

#[global] Instance PrimitiveType_eq_decision : EqDecision PrimitiveType.
Proof. solve_decision. Defined.

(** The cross-compiled parsing functions the generator can ask for. *)
Module IRFunction.
Inductive Type_ : Type :=
  | STRING_TO_BOOL
  | STRING_TO_INT8
  | STRING_TO_INT16
  | STRING_TO_INT32
  | STRING_TO_INT64
  | STRING_TO_FLOAT
  | STRING_TO_DOUBLE.
End IRFunction.

(** Modelled from the spec: the status a parser reports through its
    out-parameter. Only [PARSE_FAILURE] is named in this file; the IR
    listing above [CodegenWriteSlot] compares the status with 1. *)
Module StringParser.
Inductive ParseResult : Type :=
  | PARSE_SUCCESS
  | PARSE_FAILURE
  | PARSE_OVERFLOW.

Definition to_Z (r : ParseResult) : Z :=
  match r with
  | PARSE_SUCCESS => 0
  | PARSE_FAILURE => 1
  | PARSE_OVERFLOW => 2
  end.
End StringParser.

(** The part of a slot descriptor the generator reads. *)
Record SlotDescriptor : Type := MkSlotDescriptor {
  type : PrimitiveType;
  field_idx : nat
}.

Inductive LogEntry : Type :=
  | LOG_WARNING (msg : string)
  | LOG_ERROR (msg : string)
  | DCHECK_FAILED.

(** ** Tuple memory at run time *)

(** A field of the tuple struct: a scalar of any width as its bits, or a
    [StringValue], the pair of a data address and a length. *)
Inductive Field : Type :=
  | ScalarField (bits : Z)
  | StringField (ptr : Z) (len : Z).

Inductive Pointer : Type :=
  | TuplePtr
  | FieldPtr (idx : nat)
  | SubFieldPtr (idx sub : nat)
  | DataPtr (addr : Z)
  | StackPtr (id : nat).

Inductive RtValue : Type :=
  | IntVal (z : Z)
  | PtrVal (p : Pointer).

(** ** Collaborators for concrete runs *)

(** Collaborators for concrete runs: a layout that always yields a
    struct type, a null-marking routine that sets the indicator in field
    0, a parser that reads any field of three bytes as 123 and fails on
    the others, and a backend that accepts every function. *)
Definition example_GenerateLlvmStruct (_ : unit) : option unit := Some tt.

Definition example_CodegenUpdateNull (_ : SlotDescriptor) (_ : unit)
    (_ : bool) : option unit := Some tt.

Definition example_run_null (_ : unit) (t : list Field) : list Field :=
  <[0%nat := ScalarField 1]> t.

Definition example_StringTo (_ : IRFunction.Type_) (data len : Z)
  : Z * StringParser.ParseResult :=
  if len =? 3 then (123, StringParser.PARSE_SUCCESS)
  else (0, StringParser.PARSE_FAILURE).

Definition example_FinalizeFunction {F : Type} (f : F) : option F := Some f.

(** A layout that yields a struct type on request only, a slot subsystem
    without null-marking routine, and a parser that always reports an
    overflow. *)
Definition example_layout_on_request (wanted : bool) : option unit :=
  if wanted then Some tt else None.

Definition example_no_update_null (_ : SlotDescriptor) (_ : unit)
    (_ : bool) : option unit := None.

Definition example_StringTo_overflow (_ : IRFunction.Type_) (data len : Z)
  : Z * StringParser.ParseResult :=
  (2147483647, StringParser.PARSE_OVERFLOW).

Section WriteSlot.

(** The collaborators of the generator: the tuple layout and the struct
    type it yields, the null-marking routine obtained from the slot
    descriptor and what it does to a tuple, the parsers, and the
    backend's final check of a function. *)
Variable TupleDescriptor : Type.
Variable StructType : Type.
Variable NullFn : Type.
Variable GenerateLlvmStruct : TupleDescriptor -> option StructType.
Variable CodegenUpdateNull :
  SlotDescriptor -> StructType -> bool -> option NullFn.
Variable run_null : NullFn -> list Field -> list Field.
Variable StringTo :
  IRFunction.Type_ -> Z -> Z -> Z * StringParser.ParseResult.

(** ** The emitted code *)

Inductive LlvmType : Type :=
  | i1 | i8 | i16 | i32 | i64 | float_type | double_type
  | ptr_type
  | PointerType_get (t : StructType).

Record NamedVariable : Type := MkNamedVariable {
  var_name : string;
  var_type : LlvmType
}.

Record FnPrototype : Type := MkFnPrototype {
  proto_name : string;
  proto_ret : LlvmType;
  proto_args : list NamedVariable
}.

Definition AddArgument (p : FnPrototype) (v : NamedVariable) : FnPrototype :=
  MkFnPrototype (proto_name p) (proto_ret p) (proto_args p ++ [v]).

(** An operand: an argument of the function, a constant, or the result of
    the instruction with a given number. *)
Inductive Value : Type :=
  | Argument (idx : nat)
  | ConstantInt (ty : LlvmType) (v : Z)
  | Result (id : nat).

Inductive Callee : Type :=
  | UpdateNullFn (f : NullFn)
  | IRFn (t : IRFunction.Type_).

Inductive Instruction : Type :=
  | Alloca (id : nat) (var : NamedVariable)
  | ICmpEQ (id : nat) (lhs rhs : Value) (name : string)
  | StructGEP (id : nat) (ptr : Value) (idx : nat) (name : string)
  | Load (id : nat) (ptr : Value) (name : string)
  | Store (val ptr : Value)
  | Call (id : nat) (fn : Callee) (args : list Value)
  | CondBr (cond : Value) (true_block false_block : string)
  | Ret (v : Value).

Record BasicBlock : Type := MkBasicBlock {
  label : string;
  instructions : list Instruction
}.

Record Function : Type := MkFunction {
  prototype : FnPrototype;
  blocks : list BasicBlock
}.

Variable FinalizeFunction : Function -> option Function.

(** ** The builder *)

Definition GetType (t : PrimitiveType) : LlvmType :=
  match t with
  | TYPE_BOOLEAN => i1
  | TYPE_TINYINT => i8
  | TYPE_SMALLINT => i16
  | TYPE_INT => i32
  | TYPE_BIGINT => i64
  | TYPE_FLOAT => float_type
  | TYPE_DOUBLE => double_type
  | _ => ptr_type
  end.

Definition GetIntConstant (t : PrimitiveType) (v : Z) : Value :=
  ConstantInt (GetType t) v.

Definition true_value : Value := ConstantInt i1 1.
Definition false_value : Value := ConstantInt i1 0.

Definition GetFunction (t : IRFunction.Type_) : Callee := IRFn t.

(** The function under construction, the block the builder appends to,
    and the number of the next instruction result. *)
Record LlvmBuilder : Type := MkLlvmBuilder {
  function : Function;
  insert_point : string;
  next_id : nat
}.

Definition Build (A : Type) : Type := LlvmBuilder -> A * LlvmBuilder.

#[local] Instance Build_ret : MRet Build := fun A a b => (a, b).
#[local] Instance Build_bind : MBind Build :=
  fun A B k m b => let '(a, b') := m b in k a b'.

Definition append_to (l : string) (i : Instruction) (bs : list BasicBlock)
  : list BasicBlock :=
  map (fun b => if String.eqb (label b) l
                then MkBasicBlock (label b) (instructions b ++ [i])
                else b) bs.

Definition prepend_to (l : string) (i : Instruction) (bs : list BasicBlock)
  : list BasicBlock :=
  map (fun b => if String.eqb (label b) l
                then MkBasicBlock (label b) (i :: instructions b)
                else b) bs.

(** Append an instruction at the insertion point. *)
Definition emit (i : Instruction) : Build unit := fun b =>
  (tt, MkLlvmBuilder
         (MkFunction (prototype (function b))
                     (append_to (insert_point b) i (blocks (function b))))
         (insert_point b) (next_id b)).

(** Append an instruction that has a result. *)
Definition emit_value (mk : nat -> Instruction) : Build Value := fun b =>
  (Result (next_id b),
   MkLlvmBuilder
     (MkFunction (prototype (function b))
                 (append_to (insert_point b) (mk (next_id b))
                            (blocks (function b))))
     (insert_point b) (S (next_id b))).

(** [GeneratePrototype]: a function with an empty entry block, the
    builder placed there, and the three arguments. *)
Definition GeneratePrototype (p : FnPrototype)
  : LlvmBuilder * (Value * Value * Value) :=
  (MkLlvmBuilder (MkFunction p [MkBasicBlock "entry" []]) "entry" 0,
   (Argument 0, Argument 1, Argument 2)).

Definition CreateIfElseBlocks (if_name else_name : string)
  : Build (string * string) := fun b =>
  ((if_name, else_name),
   MkLlvmBuilder
     (MkFunction (prototype (function b))
                 (blocks (function b)
                    ++ [MkBasicBlock if_name []; MkBasicBlock else_name []]))
     (insert_point b) (next_id b)).

(** The allocation goes to the start of the entry block, wherever the
    builder stands. *)
Definition CreateEntryBlockAlloca (var : NamedVariable) : Build Value :=
  fun b =>
  (Result (next_id b),
   MkLlvmBuilder
     (MkFunction (prototype (function b))
                 (prepend_to "entry" (Alloca (next_id b) var)
                             (blocks (function b))))
     (insert_point b) (S (next_id b))).

Definition SetInsertPoint (l : string) : Build unit := fun b =>
  (tt, MkLlvmBuilder (function b) l (next_id b)).

Definition CreateICmpEQ (lhs rhs : Value) (name : string) : Build Value :=
  emit_value (fun id => ICmpEQ id lhs rhs name).
Definition CreateCondBr (c : Value) (t f : string) : Build unit :=
  emit (CondBr c t f).
Definition CreateStructGEP (p : Value) (idx : nat) (name : string)
  : Build Value :=
  emit_value (fun id => StructGEP id p idx name).
Definition CreateStore (v p : Value) : Build unit := emit (Store v p).
Definition CreateLoad (p : Value) (name : string) : Build Value :=
  emit_value (fun id => Load id p name).
Definition CreateCall (fn : Callee) (a : Value) : Build Value :=
  emit_value (fun id => Call id fn [a]).
Definition CreateCall3 (fn : Callee) (a b c : Value) : Build Value :=
  emit_value (fun id => Call id fn [a; b; c]).
Definition CreateRet (v : Value) : Build unit := emit (Ret v).

(** ** The generator *)

(** The [switch] over the slot type; [None] is its [default] branch. *)
Definition parse_fn_enum (t : PrimitiveType) : option IRFunction.Type_ :=
  match t with
  | TYPE_BOOLEAN => Some IRFunction.STRING_TO_BOOL
  | TYPE_TINYINT => Some IRFunction.STRING_TO_INT8
  | TYPE_SMALLINT => Some IRFunction.STRING_TO_INT16
  | TYPE_INT => Some IRFunction.STRING_TO_INT32
  | TYPE_BIGINT => Some IRFunction.STRING_TO_INT64
  | TYPE_FLOAT => Some IRFunction.STRING_TO_FLOAT
  | TYPE_DOUBLE => Some IRFunction.STRING_TO_DOUBLE
  | _ => None
  end.

(** The builder calls of [CodegenWriteSlot] after the prototype, in
    source order. The result is [false] when the [default] branch
    returns early. *)
Definition CodegenWriteSlot_body (slot_desc : SlotDescriptor)
    (set_null_fn : NullFn) (args : Value * Value * Value) : Build bool :=
  let '(args0, args1, args2) := args in
  '(set_null_block, parse_slot_block) ←
      CreateIfElseBlocks "set_null" "parse_slot";
  len_zero ← CreateICmpEQ args2 (GetIntConstant TYPE_INT 0) "";
  CreateCondBr len_zero set_null_block parse_slot_block;;
  SetInsertPoint parse_slot_block;;
  slot ← CreateStructGEP args0 (field_idx slot_desc) "slot";
  generated ←
    (if decide (type slot_desc = TYPE_STRING) then
       ptr ← CreateStructGEP slot 0 "string_ptr";
       len ← CreateStructGEP slot 1 "string_len";
       CreateStore args1 ptr;;
       CreateStore args2 len;;
       CreateRet true_value;;
       mret true
     else
       match parse_fn_enum (type slot_desc) with
       | None => mret false
       | Some fn_enum =>
           let parse_fn := GetFunction fn_enum in
           '(parse_success_block, parse_failed_block) ←
               CreateIfElseBlocks "parse_success" "parse_fail";
           let parse_result := MkNamedVariable "parse_result" (GetType TYPE_INT) in
           parse_result_ptr ← CreateEntryBlockAlloca parse_result;
           let failed_value :=
             GetIntConstant TYPE_INT
               (StringParser.to_Z StringParser.PARSE_FAILURE) in
           result ← CreateCall3 parse_fn args1 args2 parse_result_ptr;
           parse_result_val ← CreateLoad parse_result_ptr "parse_result";
           parse_failed ← CreateICmpEQ parse_result_val failed_value "failed";
           CreateCondBr parse_failed parse_failed_block parse_success_block;;
           SetInsertPoint parse_success_block;;
           CreateStore result slot;;
           CreateRet true_value;;
           SetInsertPoint parse_failed_block;;
           CreateCall (UpdateNullFn set_null_fn) args0;;
           CreateRet false_value;;
           mret true
       end);
  if generated : bool then
    SetInsertPoint set_null_block;;
    CreateCall (UpdateNullFn set_null_fn) args0;;
    CreateRet true_value;;
    mret true
  else mret false.

Definition WriteSlot_prototype (tuple_type : StructType) : FnPrototype :=
  let prototype := MkFnPrototype "WriteSlot" (GetType TYPE_BOOLEAN) [] in
  let prototype :=
    AddArgument prototype
      (MkNamedVariable "tuple_arg" (PointerType_get tuple_type)) in
  let prototype :=
    AddArgument prototype (MkNamedVariable "data" ptr_type) in
  AddArgument prototype (MkNamedVariable "len" (GetType TYPE_INT)).

(** [CodegenWriteSlot]: the routine, or no routine, and what was logged.
    The scoped timer at the head of the source function only measures
    time and is left out. *)
Definition CodegenWriteSlot (escape_char_ : byte)
    (tuple_desc : TupleDescriptor) (slot_desc : SlotDescriptor)
  : option Function * list LogEntry :=
  if bool_decide (type slot_desc = TYPE_STRING)
     && negb (Byte.eqb escape_char_ x00)
  then (None,
        [LOG_WARNING ("Could not codegen WriteSlot because escape characters "
                        +:+ "are not yet supported.")])
  else
    match GenerateLlvmStruct tuple_desc with
    | None => (None, [])
    | Some tuple_type =>
        match CodegenUpdateNull slot_desc tuple_type true with
        | None =>
            (None,
             [LOG_ERROR "Could not codegen WriteSlot because slot update codegen failed."])
        | Some set_null_fn =>
            let '(builder, args) :=
              GeneratePrototype (WriteSlot_prototype tuple_type) in
            match CodegenWriteSlot_body slot_desc set_null_fn args builder with
            | (true, builder') => (FinalizeFunction (function builder'), [])
            | (false, _) => (None, [DCHECK_FAILED])
            end
        end
    end.

(** ** Running the emitted routine *)

(** What a run does that is visible outside it: calls and stores, in
    order. *)
Inductive Event : Type :=
  | EvCall (fn : Callee) (args : list RtValue)
  | EvStore (p : Pointer) (v : RtValue).

Record Machine : Type := MkMachine {
  tuple : list Field;
  stack : list (nat * Z);
  results : list (nat * RtValue);
  events : list Event
}.

Fixpoint assoc {A : Type} (k : nat) (l : list (nat * A)) : option A :=
  match l with
  | [] => None
  | (k', a) :: l' => if Nat.eqb k k' then Some a else assoc k l'
  end.

Definition eval (args : list RtValue) (m : Machine) (v : Value)
  : option RtValue :=
  match v with
  | Argument i => args !! i
  | ConstantInt _ z => Some (IntVal z)
  | Result id => assoc id (results m)
  end.

Definition set_result (id : nat) (v : RtValue) (m : Machine) : Machine :=
  MkMachine (tuple m) (stack m) ((id, v) :: results m) (events m).

Definition add_event (e : Event) (m : Machine) : Machine :=
  MkMachine (tuple m) (stack m) (results m) (events m ++ [e]).

(** Address of a member of the struct a pointer refers to. *)
Definition gep (p : Pointer) (idx : nat) : option Pointer :=
  match p with
  | TuplePtr => Some (FieldPtr idx)
  | FieldPtr f => Some (SubFieldPtr f idx)
  | _ => None
  end.

(** A store: the target has to exist and to have the shape of the value. *)
Definition store (v : RtValue) (p : Pointer) (m : Machine) : option Machine :=
  match p, v with
  | FieldPtr f, IntVal z =>
      match tuple m !! f with
      | Some (ScalarField _) =>
          Some (MkMachine (<[f := ScalarField z]> (tuple m))
                          (stack m) (results m) (events m))
      | _ => None
      end
  | SubFieldPtr f 0, PtrVal (DataPtr a) =>
      match tuple m !! f with
      | Some (StringField _ l) =>
          Some (MkMachine (<[f := StringField a l]> (tuple m))
                          (stack m) (results m) (events m))
      | _ => None
      end
  | SubFieldPtr f 1, IntVal z =>
      match tuple m !! f with
      | Some (StringField a _) =>
          Some (MkMachine (<[f := StringField a z]> (tuple m))
                          (stack m) (results m) (events m))
      | _ => None
      end
  | StackPtr id, IntVal z =>
      Some (MkMachine (tuple m) ((id, z) :: stack m) (results m) (events m))
  | _, _ => None
  end.

Definition load (p : Pointer) (m : Machine) : option RtValue :=
  match p with
  | StackPtr id => IntVal <$> assoc id (stack m)
  | _ => None
  end.

(** A call: the null-marking routine acts on the tuple; a parser returns
    its value and writes its status through the out-parameter. *)
Definition call (id : nat) (fn : Callee) (vs : list RtValue) (m : Machine)
  : option Machine :=
  match fn, vs with
  | UpdateNullFn f, [PtrVal TuplePtr] =>
      Some (add_event (EvCall fn vs)
              (MkMachine (run_null f (tuple m)) (stack m) (results m)
                         (events m)))
  | IRFn t, [PtrVal (DataPtr a); IntVal l; PtrVal (StackPtr out)] =>
      let '(v, status) := StringTo t a l in
      Some (add_event (EvCall fn vs)
              (set_result id (IntVal v)
                 (MkMachine (tuple m)
                            ((out, StringParser.to_Z status) :: stack m)
                            (results m) (events m))))
  | _, _ => None
  end.

Inductive Outcome : Type :=
  | Jump (l : string)
  | Return (v : RtValue).

(** Run the instructions of one block up to its terminator. *)
Fixpoint exec_block (args : list RtValue) (code : list Instruction)
    (m : Machine) : option (Outcome * Machine) :=
  match code with
  | [] => None
  | i :: code' =>
      match i with
      | Alloca id _ =>
          exec_block args code' (set_result id (PtrVal (StackPtr id)) m)
      | ICmpEQ id lhs rhs _ =>
          match eval args m lhs, eval args m rhs with
          | Some (IntVal a), Some (IntVal b) =>
              exec_block args code'
                (set_result id (IntVal (if a =? b then 1 else 0)) m)
          | _, _ => None
          end
      | StructGEP id p idx _ =>
          match eval args m p with
          | Some (PtrVal q) =>
              match gep q idx with
              | Some r => exec_block args code' (set_result id (PtrVal r) m)
              | None => None
              end
          | _ => None
          end
      | Load id p _ =>
          match eval args m p with
          | Some (PtrVal q) =>
              match load q m with
              | Some v => exec_block args code' (set_result id v m)
              | None => None
              end
          | _ => None
          end
      | Store v p =>
          match eval args m v, eval args m p with
          | Some w, Some (PtrVal q) =>
              match store w q m with
              | Some m' => exec_block args code' (add_event (EvStore q w) m')
              | None => None
              end
          | _, _ => None
          end
      | Call id fn vs =>
          match mapM (eval args m) vs with
          | Some ws =>
              match call id fn ws m with
              | Some m' => exec_block args code' m'
              | None => None
              end
          | None => None
          end
      | CondBr c t f =>
          match eval args m c with
          | Some (IntVal z) => Some (Jump (if z =? 0 then f else t), m)
          | _ => None
          end
      | Ret v =>
          match eval args m v with
          | Some w => Some (Return w, m)
          | None => None
          end
      end
  end.

Definition find_block (f : Function) (l : string) : option BasicBlock :=
  find (fun b => String.eqb (label b) l) (blocks f).

(** Run from a block, following at most [fuel] blocks. *)
Fixpoint exec_from (fuel : nat) (f : Function) (args : list RtValue)
    (l : string) (m : Machine) : option (RtValue * Machine) :=
  match fuel with
  | O => None
  | S fuel' =>
      match find_block f l with
      | None => None
      | Some b =>
          match exec_block args (instructions b) m with
          | Some (Return v, m') => Some (v, m')
          | Some (Jump l', m') => exec_from fuel' f args l' m'
          | None => None
          end
      end
  end.

Record WriteSlotResult : Type := MkWriteSlotResult {
  success : bool;
  tuple_after : list Field;
  trace : list Event
}.

(** A call [WriteSlot(tuple_arg, data, len)] of the emitted routine on a
    tuple, with the field at address [data]. *)
Definition WriteSlot (fuel : nat) (f : Function) (tuple_arg : list Field)
    (data len : Z) : option WriteSlotResult :=
  match exec_from fuel f [PtrVal TuplePtr; PtrVal (DataPtr data); IntVal len]
          "entry" (MkMachine tuple_arg [] [] []) with
  | Some (IntVal z, m) =>
      Some (MkWriteSlotResult (negb (z =? 0)) (tuple m) (events m))
  | _ => None
  end.

(** The seven scalar types the [switch] covers. *)
Definition is_scalar (t : PrimitiveType) : bool :=
  match parse_fn_enum t with Some _ => true | None => false end.

(** ** The emitted routines, written out *)

(** The backend's final step either rejects the function or hands back
    that very function as the callable artifact. *)
Hypothesis FinalizeFunction_keeps :
  forall f g, FinalizeFunction f = Some g -> g = f.

Definition entry_test : list Instruction :=
  [ICmpEQ 0 (Argument 2) (ConstantInt i32 0) "";
   CondBr (Result 0) "set_null" "parse_slot"].

(** The routine for a string slot. *)
Definition string_routine (tuple_type : StructType) (idx : nat)
    (set_null_fn : NullFn) : Function :=
  MkFunction (WriteSlot_prototype tuple_type)
    [MkBasicBlock "entry" entry_test;
     MkBasicBlock "set_null"
       [Call 4 (UpdateNullFn set_null_fn) [Argument 0];
        Ret (ConstantInt i1 1)];
     MkBasicBlock "parse_slot"
       [StructGEP 1 (Argument 0) idx "slot";
        StructGEP 2 (Result 1) 0 "string_ptr";
        StructGEP 3 (Result 1) 1 "string_len";
        Store (Argument 1) (Result 2);
        Store (Argument 2) (Result 3);
        Ret (ConstantInt i1 1)]].

(** The routine for a scalar slot; it is the listing that precedes
    [CodegenWriteSlot] in the source, for any of the seven parsers. *)
Definition scalar_routine (tuple_type : StructType) (idx : nat)
    (set_null_fn : NullFn) (fn_enum : IRFunction.Type_) : Function :=
  MkFunction (WriteSlot_prototype tuple_type)
    [MkBasicBlock "entry"
       (Alloca 2 (MkNamedVariable "parse_result" i32) :: entry_test);
     MkBasicBlock "set_null"
       [Call 7 (UpdateNullFn set_null_fn) [Argument 0];
        Ret (ConstantInt i1 1)];
     MkBasicBlock "parse_slot"
       [StructGEP 1 (Argument 0) idx "slot";
        Call 3 (IRFn fn_enum) [Argument 1; Argument 2; Result 2];
        Load 4 (Result 2) "parse_result";
        ICmpEQ 5 (Result 4) (ConstantInt i32 1) "failed";
        CondBr (Result 5) "parse_fail" "parse_success"];
     MkBasicBlock "parse_success"
       [Store (Result 3) (Result 1); Ret (ConstantInt i1 1)];
     MkBasicBlock "parse_fail"
       [Call 6 (UpdateNullFn set_null_fn) [Argument 0];
        Ret (ConstantInt i1 0)]].

(** The routine the builder calls produce for a slot, if any. *)
Definition emitted_routine (tuple_type : StructType) (sd : SlotDescriptor)
    (set_null_fn : NullFn) : option Function :=
  if decide (type sd = TYPE_STRING)
  then Some (string_routine tuple_type (field_idx sd) set_null_fn)
  else match parse_fn_enum (type sd) with
       | Some fn_enum =>
           Some (scalar_routine tuple_type (field_idx sd) set_null_fn fn_enum)
       | None => None
       end.

Lemma CodegenWriteSlot_body_emits tuple_type sd set_null_fn :
  let '(builder, args) := GeneratePrototype (WriteSlot_prototype tuple_type) in
  let '(generated, builder') :=
    CodegenWriteSlot_body sd set_null_fn args builder in
  (if generated then Some (function builder') else None)
    = emitted_routine tuple_type sd set_null_fn.
Proof.
  destruct sd as [t idx]. unfold emitted_routine.
  destruct t; vm_compute; reflexivity.
Qed.

(** What a successful generation tells: both collaborators delivered,
    nothing was logged, a string slot had no escape byte, and the routine
    is the one the builder calls emit. *)
Lemma CodegenWriteSlot_Some esc td sd fn log :
  CodegenWriteSlot esc td sd = (Some fn, log) ->
  exists tuple_type set_null_fn,
    GenerateLlvmStruct td = Some tuple_type
    /\ CodegenUpdateNull sd tuple_type true = Some set_null_fn
    /\ emitted_routine tuple_type sd set_null_fn = Some fn
    /\ (type sd = TYPE_STRING -> esc = x00)
    /\ log = [].
Proof.
  unfold CodegenWriteSlot.
  destruct (bool_decide (type sd = TYPE_STRING) && negb (Byte.eqb esc x00))
    eqn:Hrefuse; [discriminate|].
  destruct (GenerateLlvmStruct td) as [tuple_type|] eqn:Htype;
    [|discriminate].
  destruct (CodegenUpdateNull sd tuple_type true) as [set_null_fn|] eqn:Hnull;
    [|discriminate].
  pose proof (CodegenWriteSlot_body_emits tuple_type sd set_null_fn) as Hemit.
  destruct (GeneratePrototype (WriteSlot_prototype tuple_type))
    as [builder args].
  destruct (CodegenWriteSlot_body sd set_null_fn args builder)
    as [[|] builder']; [|discriminate].
  intros Hfin. injection Hfin as Hfn <-.
  apply FinalizeFunction_keeps in Hfn. subst fn.
  exists tuple_type, set_null_fn.
  split; [reflexivity|]. split; [exact Hnull|].
  split; [symmetry; exact Hemit|]. split; [|reflexivity].
  intros Hstr. apply andb_false_iff in Hrefuse as [Hty|Hesc].
  - apply bool_decide_eq_false in Hty. contradiction.
  - apply negb_false_iff in Hesc. apply Byte.byte_dec_bl in Hesc. exact Hesc.
Qed.

(** Generation goes through for the string type without escaping and for
    the seven scalar types, whenever the collaborators deliver. *)
Lemma CodegenWriteSlot_supported esc td sd tuple_type set_null_fn fn :
  GenerateLlvmStruct td = Some tuple_type ->
  CodegenUpdateNull sd tuple_type true = Some set_null_fn ->
  emitted_routine tuple_type sd set_null_fn = Some fn ->
  (type sd = TYPE_STRING -> esc = x00) ->
  CodegenWriteSlot esc td sd = (FinalizeFunction fn, []).
Proof.
  intros Htype Hnull Hemit Hesc. unfold CodegenWriteSlot.
  destruct (bool_decide (type sd = TYPE_STRING) && negb (Byte.eqb esc x00))
    eqn:Hrefuse.
  - apply andb_true_iff in Hrefuse as [Hty Hne].
    apply bool_decide_eq_true in Hty. rewrite (Hesc Hty) in Hne.
    discriminate Hne.
  - rewrite Htype, Hnull.
    pose proof (CodegenWriteSlot_body_emits tuple_type sd set_null_fn) as Hb.
    destruct (GeneratePrototype (WriteSlot_prototype tuple_type))
      as [builder args].
    destruct (CodegenWriteSlot_body sd set_null_fn args builder)
      as [[|] builder']; rewrite Hemit in Hb; [|discriminate Hb].
    injection Hb as ->. reflexivity.
Qed.

(** *** Runs of the two routines *)

Lemma string_routine_empty tuple_type idx f tuple_arg data fuel :
  WriteSlot (S (S fuel)) (string_routine tuple_type idx f) tuple_arg data 0 =
    Some (MkWriteSlotResult true (run_null f tuple_arg)
            [EvCall (UpdateNullFn f) [PtrVal TuplePtr]]).
Proof. reflexivity. Qed.

Lemma scalar_routine_empty tuple_type idx f e tuple_arg data fuel :
  WriteSlot (S (S fuel)) (scalar_routine tuple_type idx f e) tuple_arg data 0 =
    Some (MkWriteSlotResult true (run_null f tuple_arg)
            [EvCall (UpdateNullFn f) [PtrVal TuplePtr]]).
Proof. reflexivity. Qed.

Lemma string_routine_store tuple_type idx f tuple_arg data len p0 l0 fuel :
  len <> 0 ->
  tuple_arg !! idx = Some (StringField p0 l0) ->
  WriteSlot (S (S fuel)) (string_routine tuple_type idx f) tuple_arg data len =
    Some (MkWriteSlotResult true (<[idx := StringField data len]> tuple_arg)
            [EvStore (SubFieldPtr idx 0) (PtrVal (DataPtr data));
             EvStore (SubFieldPtr idx 1) (IntVal len)]).
Proof.
  intros Hlen Hfield. apply Z.eqb_neq in Hlen.
  pose proof (lookup_lt_Some _ _ _ Hfield) as Hidx.
  unfold WriteSlot. cbn. rewrite Hlen. cbn. rewrite Hfield. cbn.
  rewrite list_lookup_insert_eq by exact Hidx. cbn.
  rewrite list_insert_insert_eq. reflexivity.
Qed.

(** A scalar routine after the parser returned [v] with a status. *)
Lemma scalar_routine_parse tuple_type idx f e tuple_arg data len old v status
    fuel :
  len <> 0 ->
  tuple_arg !! idx = Some (ScalarField old) ->
  StringTo e data len = (v, status) ->
  WriteSlot (S (S (S fuel))) (scalar_routine tuple_type idx f e)
      tuple_arg data len =
    Some (match status with
          | StringParser.PARSE_FAILURE =>
              MkWriteSlotResult false (run_null f tuple_arg)
                [EvCall (IRFn e)
                   [PtrVal (DataPtr data); IntVal len; PtrVal (StackPtr 2)];
                 EvCall (UpdateNullFn f) [PtrVal TuplePtr]]
          | _ =>
              MkWriteSlotResult true (<[idx := ScalarField v]> tuple_arg)
                [EvCall (IRFn e)
                   [PtrVal (DataPtr data); IntVal len; PtrVal (StackPtr 2)];
                 EvStore (FieldPtr idx) (IntVal v)]
          end).
Proof.
  intros Hlen Hfield Hparse. apply Z.eqb_neq in Hlen.
  unfold WriteSlot. cbn. rewrite Hlen. cbn. rewrite Hparse.
  destruct status; cbn; rewrite ?Hfield; reflexivity.
Qed.

Lemma emitted_routine_scalar tuple_type sd f fn :
  is_scalar (type sd) = true ->
  emitted_routine tuple_type sd f = Some fn ->
  exists e, parse_fn_enum (type sd) = Some e
            /\ fn = scalar_routine tuple_type (field_idx sd) f e.
Proof.
  unfold is_scalar, emitted_routine. intros Hscalar Hemit.
  destruct (decide (type sd = TYPE_STRING)) as [Hstr|Hstr].
  - rewrite Hstr in Hscalar. discriminate Hscalar.
  - destruct (parse_fn_enum (type sd)) as [e|]; [|discriminate Hscalar].
    exists e. split; [reflexivity|congruence].
Qed.

Lemma fuel_two (fuel : nat) : (2 <= fuel)%nat -> exists k, fuel = S (S k).
Proof. intros H. exists (fuel - 2)%nat. lia. Qed.

Lemma fuel_three (fuel : nat) : (3 <= fuel)%nat -> exists k, fuel = S (S (S k)).
Proof. intros H. exists (fuel - 3)%nat. lia. Qed.

(** The [switch], as a table: the seven scalar types and the parser of
    each. *)
Lemma parse_fn_enum_table t e :
  (t, e) ∈
    [(TYPE_BOOLEAN, IRFunction.STRING_TO_BOOL);
     (TYPE_TINYINT, IRFunction.STRING_TO_INT8);
     (TYPE_SMALLINT, IRFunction.STRING_TO_INT16);
     (TYPE_INT, IRFunction.STRING_TO_INT32);
     (TYPE_BIGINT, IRFunction.STRING_TO_INT64);
     (TYPE_FLOAT, IRFunction.STRING_TO_FLOAT);
     (TYPE_DOUBLE, IRFunction.STRING_TO_DOUBLE)] ->
  parse_fn_enum t = Some e /\ t <> TYPE_STRING.
Proof.
  intros Hin.
  repeat (apply elem_of_cons in Hin as [Hin|Hin];
          [injection Hin as -> ->; split; [reflexivity|discriminate]|]).
  apply elem_of_nil in Hin. contradiction.
Qed.

Lemma parse_fn_enum_in_table t e :
  parse_fn_enum t = Some e ->
  (t, e) ∈
    [(TYPE_BOOLEAN, IRFunction.STRING_TO_BOOL);
     (TYPE_TINYINT, IRFunction.STRING_TO_INT8);
     (TYPE_SMALLINT, IRFunction.STRING_TO_INT16);
     (TYPE_INT, IRFunction.STRING_TO_INT32);
     (TYPE_BIGINT, IRFunction.STRING_TO_INT64);
     (TYPE_FLOAT, IRFunction.STRING_TO_FLOAT);
     (TYPE_DOUBLE, IRFunction.STRING_TO_DOUBLE)].
Proof.
  destruct t; simpl; intros He; try discriminate He;
    injection He as <-; repeat first [apply list_elem_of_here
                                     |apply list_elem_of_further].
Qed.

(** ** Claims about the generated routine *)

(** C1. For each of the seven scalar slot types, listed with the parser
    of each, generation emits the routine that calls that parser (and
    returns it when the collaborators deliver and the backend accepts
    it). On a field of non-zero length the returned routine calls the
    parser of the slot's type on the field. When the parser reports
    success the routine stores the parsed value into the slot and returns
    true. When the parser reports failure the routine calls the
    null-marking routine and returns false, and it performs no store:
    the tuple is the one the null-marking routine returns on the
    original tuple. *)
Theorem scalar_slot_parse_outcomes esc td sd fn_enum tuple_type set_null_fn
    tuple_arg data len old fuel :
  (type sd, fn_enum) ∈
    [(TYPE_BOOLEAN, IRFunction.STRING_TO_BOOL);
     (TYPE_TINYINT, IRFunction.STRING_TO_INT8);
     (TYPE_SMALLINT, IRFunction.STRING_TO_INT16);
     (TYPE_INT, IRFunction.STRING_TO_INT32);
     (TYPE_BIGINT, IRFunction.STRING_TO_INT64);
     (TYPE_FLOAT, IRFunction.STRING_TO_FLOAT);
     (TYPE_DOUBLE, IRFunction.STRING_TO_DOUBLE)] ->
  GenerateLlvmStruct td = Some tuple_type ->
  CodegenUpdateNull sd tuple_type true = Some set_null_fn ->
  len <> 0 ->
  tuple_arg !! field_idx sd = Some (ScalarField old) ->
  (3 <= fuel)%nat ->
  CodegenWriteSlot esc td sd =
    (FinalizeFunction
       (scalar_routine tuple_type (field_idx sd) set_null_fn fn_enum), [])
  /\ forall fn log,
       CodegenWriteSlot esc td sd = (Some fn, log) ->
       forall v,
         (StringTo fn_enum data len = (v, StringParser.PARSE_SUCCESS) ->
          WriteSlot fuel fn tuple_arg data len =
            Some (MkWriteSlotResult true
                    (<[field_idx sd := ScalarField v]> tuple_arg)
                    [EvCall (IRFn fn_enum)
                       [PtrVal (DataPtr data); IntVal len;
                        PtrVal (StackPtr 2)];
                     EvStore (FieldPtr (field_idx sd)) (IntVal v)]))
         /\ (StringTo fn_enum data len = (v, StringParser.PARSE_FAILURE) ->
             WriteSlot fuel fn tuple_arg data len =
               Some (MkWriteSlotResult false
                       (run_null set_null_fn tuple_arg)
                       [EvCall (IRFn fn_enum)
                          [PtrVal (DataPtr data); IntVal len;
                           PtrVal (StackPtr 2)];
                        EvCall (UpdateNullFn set_null_fn)
                          [PtrVal TuplePtr]])).
Proof.
  intros Htable Htype Hnull Hlen Hfield Hfuel.
  apply parse_fn_enum_table in Htable as [He Hstr].
  assert (CodegenWriteSlot esc td sd =
            (FinalizeFunction
               (scalar_routine tuple_type (field_idx sd) set_null_fn fn_enum),
             [])) as Hgen.
  { apply CodegenWriteSlot_supported with (tuple_type := tuple_type)
                                          (set_null_fn := set_null_fn);
      [assumption|assumption| |intros Hs; contradiction].
    unfold emitted_routine.
    destruct (decide (type sd = TYPE_STRING)); [contradiction|].
    rewrite He. reflexivity. }
  split; [exact Hgen|].
  intros fn log Hfn. rewrite Hgen in Hfn. injection Hfn as Hfin _.
  apply FinalizeFunction_keeps in Hfin. subst fn.
  apply fuel_three in Hfuel as [k ->].
  intros v. split; intros Hparse.
  - rewrite (scalar_routine_parse _ _ _ _ _ _ _ _ _ _ _ Hlen Hfield Hparse).
    reflexivity.
  - rewrite (scalar_routine_parse _ _ _ _ _ _ _ _ _ _ _ Hlen Hfield Hparse).
    reflexivity.
Qed.

(** C2. Whatever the slot type for which a routine was generated, a call
    with length 0 calls the slot's null-marking routine, returns true,
    and does nothing else: no parser is called and nothing is stored. *)
Theorem empty_field_marks_null esc td sd fn log tuple_arg data fuel :
  CodegenWriteSlot esc td sd = (Some fn, log) ->
  (2 <= fuel)%nat ->
  exists tuple_type set_null_fn,
    GenerateLlvmStruct td = Some tuple_type
    /\ CodegenUpdateNull sd tuple_type true = Some set_null_fn
    /\ WriteSlot fuel fn tuple_arg data 0 =
         Some (MkWriteSlotResult true (run_null set_null_fn tuple_arg)
                 [EvCall (UpdateNullFn set_null_fn) [PtrVal TuplePtr]]).
Proof.
  intros Hgen Hfuel.
  apply CodegenWriteSlot_Some in Hgen
    as (tuple_type & f & Htype & Hnull & Hemit & _ & _).
  apply fuel_two in Hfuel as [k ->].
  exists tuple_type, f. repeat (split; [assumption|]).
  unfold emitted_routine in Hemit.
  destruct (decide (type sd = TYPE_STRING)).
  - injection Hemit as <-. apply string_routine_empty.
  - destruct (parse_fn_enum (type sd)); [|discriminate Hemit].
    injection Hemit as <-. apply scalar_routine_empty.
Qed.

(** C3. For a string slot and no escape byte (the byte 0), a call with a
    non-zero length stores the field pointer and the field length as they
    are into the slot's pointer and length, and returns true; nothing is
    called. *)
Theorem string_slot_stores_pointer_and_length td sd fn log tuple_arg data len
    p0 l0 fuel :
  type sd = TYPE_STRING ->
  CodegenWriteSlot x00 td sd = (Some fn, log) ->
  len <> 0 ->
  tuple_arg !! field_idx sd = Some (StringField p0 l0) ->
  (2 <= fuel)%nat ->
  WriteSlot fuel fn tuple_arg data len =
    Some (MkWriteSlotResult true
            (<[field_idx sd := StringField data len]> tuple_arg)
            [EvStore (SubFieldPtr (field_idx sd) 0) (PtrVal (DataPtr data));
             EvStore (SubFieldPtr (field_idx sd) 1) (IntVal len)]).
Proof.
  intros Hstr Hgen Hlen Hfield Hfuel.
  apply CodegenWriteSlot_Some in Hgen
    as (tuple_type & f & Htype & Hnull & Hemit & _ & _).
  apply fuel_two in Hfuel as [k ->].
  unfold emitted_routine in Hemit.
  destruct (decide (type sd = TYPE_STRING)); [|contradiction].
  injection Hemit as <-.
  apply (string_routine_store _ _ _ _ _ _ p0 l0); assumption.
Qed.

(** C4. For a string slot and an escape byte other than 0, generation
    returns no routine, and the refusal is logged as a warning. *)
Theorem escaped_string_slot_refused esc td sd :
  type sd = TYPE_STRING ->
  esc <> x00 ->
  CodegenWriteSlot esc td sd =
    (None,
     [LOG_WARNING "Could not codegen WriteSlot because escape characters are not yet supported."]).
Proof.
  intros Hstr Hesc. unfold CodegenWriteSlot.
  rewrite bool_decide_eq_true_2 by exact Hstr.
  assert (Byte.eqb esc x00 = false) as ->.
  { destruct (Byte.eqb esc x00) eqn:E; [|reflexivity].
    apply Byte.byte_dec_bl in E. contradiction. }
  reflexivity.
Qed.

(** A parser status of overflow is not a failure for the routine: the
    returned value is stored. *)
Remark scalar_routine_overflow_stored tuple_type idx f e tuple_arg data len
    old v fuel :
  len <> 0 ->
  tuple_arg !! idx = Some (ScalarField old) ->
  StringTo e data len = (v, StringParser.PARSE_OVERFLOW) ->
  success <$> WriteSlot (S (S (S fuel))) (scalar_routine tuple_type idx f e)
                tuple_arg data len = Some true.
Proof.
  intros Hlen Hfield Hparse.
  rewrite (scalar_routine_parse _ _ _ _ _ _ _ _ _ _ _ Hlen Hfield Hparse).
  reflexivity.
Qed.

(** ** Further properties of the generator and of the routine *)

(** A block is closed by a return or a branch. *)
Definition is_terminator (i : Instruction) : bool :=
  match i with
  | CondBr _ _ _ | Ret _ => true
  | _ => false
  end.

Definition branch_targets (i : Instruction) : list string :=
  match i with
  | CondBr _ t f => [t; f]
  | _ => []
  end.

(** The last instruction of the block is its only terminator, and it
    branches to blocks of the function only. *)
Definition block_well_formed (labels : list string) (b : BasicBlock) : bool :=
  match reverse (instructions b) with
  | [] => false
  | last :: body =>
      is_terminator last
      && forallb (fun i => negb (is_terminator i)) body
      && forallb (fun l => existsb (String.eqb l) labels)
                 (branch_targets last)
  end.

(** The entry block comes first, no two blocks share a label, and every
    block is well formed. *)
Definition well_formed (f : Function) : bool :=
  let labels := map label (blocks f) in
  match labels with
  | l :: _ => String.eqb l "entry"
  | [] => false
  end
  && bool_decide (NoDup labels)
  && forallb (block_well_formed labels) (blocks f).

(** The field a slot descriptor points at has the shape of its type. *)
Definition slot_fits (t : PrimitiveType) (f : Field) : bool :=
  match f with
  | StringField _ _ => bool_decide (t = TYPE_STRING)
  | ScalarField _ => negb (bool_decide (t = TYPE_STRING))
  end.

(** Every run of a generated routine on a tuple that fits, in one
    statement. *)
Lemma generated_run esc td sd fn log tuple_arg fld data len fuel :
  CodegenWriteSlot esc td sd = (Some fn, log) ->
  tuple_arg !! field_idx sd = Some fld ->
  slot_fits (type sd) fld = true ->
  (3 <= fuel)%nat ->
  exists set_null_fn,
    WriteSlot fuel fn tuple_arg data len =
      Some (if len =? 0
            then MkWriteSlotResult true (run_null set_null_fn tuple_arg)
                   [EvCall (UpdateNullFn set_null_fn) [PtrVal TuplePtr]]
            else
              match parse_fn_enum (type sd) with
              | None =>
                  MkWriteSlotResult true
                    (<[field_idx sd := StringField data len]> tuple_arg)
                    [EvStore (SubFieldPtr (field_idx sd) 0)
                       (PtrVal (DataPtr data));
                     EvStore (SubFieldPtr (field_idx sd) 1) (IntVal len)]
              | Some e =>
                  match snd (StringTo e data len) with
                  | StringParser.PARSE_FAILURE =>
                      MkWriteSlotResult false (run_null set_null_fn tuple_arg)
                        [EvCall (IRFn e)
                           [PtrVal (DataPtr data); IntVal len;
                            PtrVal (StackPtr 2)];
                         EvCall (UpdateNullFn set_null_fn) [PtrVal TuplePtr]]
                  | _ =>
                      MkWriteSlotResult true
                        (<[field_idx sd := ScalarField
                                             (fst (StringTo e data len))]>
                           tuple_arg)
                        [EvCall (IRFn e)
                           [PtrVal (DataPtr data); IntVal len;
                            PtrVal (StackPtr 2)];
                         EvStore (FieldPtr (field_idx sd))
                           (IntVal (fst (StringTo e data len)))]
                  end
              end).
Proof.
  intros Hgen Hfield Hfits Hfuel.
  apply CodegenWriteSlot_Some in Hgen
    as (tuple_type & f & _ & _ & Hemit & _ & _).
  apply fuel_three in Hfuel as [k ->]. exists f.
  unfold emitted_routine in Hemit.
  destruct (decide (type sd = TYPE_STRING)) as [Hstr|Hstr].
  - injection Hemit as <-. rewrite Hstr. simpl.
    destruct (Z.eqb_spec len 0) as [->|Hlen].
    + apply (string_routine_empty tuple_type (field_idx sd) f tuple_arg data
               (S k)).
    + destruct fld as [old|p0 l0].
      * simpl in Hfits. rewrite bool_decide_eq_true_2 in Hfits by exact Hstr.
        discriminate Hfits.
      * apply (string_routine_store _ _ _ _ _ _ p0 l0 (S k)); assumption.
  - destruct (parse_fn_enum (type sd)) as [e|]; [|discriminate Hemit].
    injection Hemit as <-.
    destruct (Z.eqb_spec len 0) as [->|Hlen].
    + apply (scalar_routine_empty tuple_type (field_idx sd) f e tuple_arg data
               (S k)).
    + destruct fld as [old|p0 l0].
      * destruct (StringTo e data len) as [v status] eqn:Hparse.
        rewrite (scalar_routine_parse _ _ _ _ _ _ _ _ _ _ _ Hlen Hfield Hparse).
        destruct status; reflexivity.
      * simpl in Hfits. rewrite bool_decide_eq_false_2 in Hfits by exact Hstr.
        discriminate Hfits.
Qed.

(** X10. When a routine comes back: exactly when the layout and the
    null-marking codegen both delivered, the backend accepted the emitted
    function, and the slot is either a string slot with escape byte 0,
    for which the string routine is emitted, or a slot of one of the
    seven scalar types, for which the routine that calls the parser of
    that type is emitted. *)
Theorem CodegenWriteSlot_routine_iff esc td sd fn :
  fst (CodegenWriteSlot esc td sd) = Some fn <->
  exists tuple_type set_null_fn r,
    GenerateLlvmStruct td = Some tuple_type
    /\ CodegenUpdateNull sd tuple_type true = Some set_null_fn
    /\ (type sd = TYPE_STRING /\ esc = x00
        /\ r = string_routine tuple_type (field_idx sd) set_null_fn
        \/ exists fn_enum,
             (type sd, fn_enum) ∈
               [(TYPE_BOOLEAN, IRFunction.STRING_TO_BOOL);
               (TYPE_TINYINT, IRFunction.STRING_TO_INT8);
               (TYPE_SMALLINT, IRFunction.STRING_TO_INT16);
               (TYPE_INT, IRFunction.STRING_TO_INT32);
               (TYPE_BIGINT, IRFunction.STRING_TO_INT64);
               (TYPE_FLOAT, IRFunction.STRING_TO_FLOAT);
               (TYPE_DOUBLE, IRFunction.STRING_TO_DOUBLE)]
             /\ r = scalar_routine tuple_type (field_idx sd) set_null_fn
                      fn_enum)
    /\ FinalizeFunction r = Some fn.
Proof.
  split.
  - unfold CodegenWriteSlot.
    destruct (bool_decide (type sd = TYPE_STRING) && negb (Byte.eqb esc x00))
      eqn:Hrefuse; [discriminate|].
    destruct (GenerateLlvmStruct td) as [tuple_type|] eqn:Htype;
      [|discriminate].
    destruct (CodegenUpdateNull sd tuple_type true) as [f|] eqn:Hnull;
      [|discriminate].
    pose proof (CodegenWriteSlot_body_emits tuple_type sd f) as Hemit.
    destruct (GeneratePrototype (WriteSlot_prototype tuple_type))
      as [builder args].
    destruct (CodegenWriteSlot_body sd f args builder)
      as [[|] builder']; [|discriminate].
    simpl. intros Hfin.
    exists tuple_type, f, (function builder').
    split; [reflexivity|]. split; [exact Hnull|].
    split; [|exact Hfin].
    unfold emitted_routine in Hemit.
    destruct (decide (type sd = TYPE_STRING)) as [Hstr|Hstr].
    + left. split; [exact Hstr|]. split; [|congruence].
      rewrite bool_decide_eq_true_2 in Hrefuse by exact Hstr.
      simpl in Hrefuse. apply negb_false_iff, Byte.byte_dec_bl in Hrefuse.
      exact Hrefuse.
    + right. destruct (parse_fn_enum (type sd)) as [e|] eqn:He;
        [|discriminate Hemit].
      exists e. split; [apply parse_fn_enum_in_table, He|congruence].
  - intros (tuple_type & f & r & Htype & Hnull & Hsupp & Hfin).
    rewrite (CodegenWriteSlot_supported esc td sd tuple_type f r);
      [exact Hfin|assumption|assumption| |].
    + unfold emitted_routine.
      destruct Hsupp as [(Hstr & _ & ->)|(e & Htable & ->)].
      * destruct (decide (type sd = TYPE_STRING)); [reflexivity|contradiction].
      * apply parse_fn_enum_table in Htable as [He Hstr].
        destruct (decide (type sd = TYPE_STRING)); [contradiction|].
        rewrite He. reflexivity.
    + intros Hstr. destruct Hsupp as [(_ & Hesc & _)|(e & Htable & _)];
        [exact Hesc|].
      apply parse_fn_enum_table in Htable as [_ Hne]. contradiction.
Qed.

(** X11. The two collaborator failures, for a slot that is not refused
    for its escape byte: a layout without struct type gives no routine
    and no log entry; a missing null-marking routine gives no routine and
    one error entry. *)
Theorem collaborator_failures esc td sd :
  (type sd = TYPE_STRING -> esc = x00) ->
  (GenerateLlvmStruct td = None ->
   CodegenWriteSlot esc td sd = (None, []))
  /\ (forall tuple_type,
        GenerateLlvmStruct td = Some tuple_type ->
        CodegenUpdateNull sd tuple_type true = None ->
        CodegenWriteSlot esc td sd =
          (None,
           [LOG_ERROR "Could not codegen WriteSlot because slot update codegen failed."])).
Proof.
  intros Hesc.
  assert (bool_decide (type sd = TYPE_STRING) && negb (Byte.eqb esc x00)
          = false) as Hrefuse.
  { destruct (decide (type sd = TYPE_STRING)) as [Hstr|Hstr].
    - rewrite (Hesc Hstr). apply andb_false_r.
    - rewrite bool_decide_eq_false_2 by exact Hstr. reflexivity. }
  split.
  - intros Htype. unfold CodegenWriteSlot. rewrite Hrefuse, Htype.
    reflexivity.
  - intros tuple_type Htype Hnull. unfold CodegenWriteSlot.
    rewrite Hrefuse, Htype, Hnull. reflexivity.
Qed.

(** X12. For a slot that is not a string slot the escape byte plays no
    part: generation gives the same result for any two escape bytes. *)
Theorem non_string_slot_ignores_escape esc1 esc2 td sd :
  type sd <> TYPE_STRING ->
  CodegenWriteSlot esc1 td sd = CodegenWriteSlot esc2 td sd.
Proof.
  intros Hstr. unfold CodegenWriteSlot.
  rewrite bool_decide_eq_false_2 by exact Hstr. reflexivity.
Qed.

(** X13. Every routine that is returned is well formed: the entry block
    is first, labels are distinct, and each block ends in its only
    terminator, which branches to blocks of the routine. *)
Theorem generated_routine_well_formed esc td sd fn log :
  CodegenWriteSlot esc td sd = (Some fn, log) ->
  well_formed fn = true.
Proof.
  intros Hgen.
  apply CodegenWriteSlot_Some in Hgen
    as (tuple_type & f & _ & _ & Hemit & _ & _).
  unfold emitted_routine in Hemit.
  destruct (decide (type sd = TYPE_STRING)).
  - injection Hemit as <-. vm_compute. reflexivity.
  - destruct (parse_fn_enum (type sd)); [|discriminate Hemit].
    injection Hemit as <-. vm_compute. reflexivity.
Qed.

(** X14. A generated routine always returns, after at most three blocks,
    whatever the field address and length, on every tuple whose field at
    the slot's index has the shape of the slot type. *)
Theorem routine_always_returns esc td sd fn log tuple_arg fld data len fuel :
  CodegenWriteSlot esc td sd = (Some fn, log) ->
  tuple_arg !! field_idx sd = Some fld ->
  slot_fits (type sd) fld = true ->
  (3 <= fuel)%nat ->
  exists r, WriteSlot fuel fn tuple_arg data len = Some r.
Proof.
  intros Hgen Hfield Hfits Hfuel.
  destruct (generated_run esc td sd fn log tuple_arg fld data len fuel
              Hgen Hfield Hfits Hfuel) as (f & Hrun).
  eexists. exact Hrun.
Qed.

(** X15. The routine returns false in one case only: the field is not
    empty, the slot is scalar and its parser reported failure. *)
Theorem routine_false_iff_parse_failure esc td sd fn log tuple_arg fld data
    len fuel r :
  CodegenWriteSlot esc td sd = (Some fn, log) ->
  tuple_arg !! field_idx sd = Some fld ->
  slot_fits (type sd) fld = true ->
  (3 <= fuel)%nat ->
  WriteSlot fuel fn tuple_arg data len = Some r ->
  success r = false <->
  len <> 0
  /\ exists e,
       parse_fn_enum (type sd) = Some e
       /\ snd (StringTo e data len) = StringParser.PARSE_FAILURE.
Proof.
  intros Hgen Hfield Hfits Hfuel Hrun.
  destruct (generated_run esc td sd fn log tuple_arg fld data len fuel
              Hgen Hfield Hfits Hfuel) as (f & Hrun').
  rewrite Hrun in Hrun'. injection Hrun' as ->.
  destruct (Z.eqb_spec len 0) as [->|Hlen]; simpl.
  - split; [discriminate|intros [Hne _]; contradiction].
  - destruct (parse_fn_enum (type sd)) as [e|]; simpl.
    + destruct (snd (StringTo e data len)) eqn:Hstatus; simpl.
      * split; [discriminate|].
        intros (_ & e' & He & Hs). injection He as <-. congruence.
      * split; [|reflexivity]. intros _. split; [exact Hlen|].
        exists e. split; [reflexivity|exact Hstatus].
      * split; [discriminate|].
        intros (_ & e' & He & Hs). injection He as <-. congruence.
    + split; [discriminate|]. intros (_ & e & He & _). discriminate He.
Qed.

(** X16. A parser status of overflow is not treated as a failure: the
    value the parser returned is stored into the slot and the routine
    returns true. *)
Theorem overflow_is_stored esc td sd fn log tuple_arg data len old e v fuel :
  CodegenWriteSlot esc td sd = (Some fn, log) ->
  parse_fn_enum (type sd) = Some e ->
  len <> 0 ->
  tuple_arg !! field_idx sd = Some (ScalarField old) ->
  StringTo e data len = (v, StringParser.PARSE_OVERFLOW) ->
  (3 <= fuel)%nat ->
  WriteSlot fuel fn tuple_arg data len =
    Some (MkWriteSlotResult true
            (<[field_idx sd := ScalarField v]> tuple_arg)
            [EvCall (IRFn e)
               [PtrVal (DataPtr data); IntVal len; PtrVal (StackPtr 2)];
             EvStore (FieldPtr (field_idx sd)) (IntVal v)]).
Proof.
  intros Hgen He Hlen Hfield Hparse Hfuel.
  apply CodegenWriteSlot_Some in Hgen
    as (tuple_type & f & _ & _ & Hemit & _ & _).
  apply emitted_routine_scalar in Hemit as (e' & He' & ->);
    [|unfold is_scalar; rewrite He; reflexivity].
  rewrite He in He'. injection He' as <-.
  apply fuel_three in Hfuel as [k ->].
  rewrite (scalar_routine_parse _ _ _ _ _ _ _ _ _ _ _ Hlen Hfield Hparse).
  reflexivity.
Qed.

(** X17. A call on a non-empty field that returns true changes the
    slot's own field and nothing else: the tuple keeps its size and every
    other field, the one that holds the null indicators included, is as
    before. The routine never clears a null indicator. *)
Theorem successful_write_keeps_other_fields esc td sd fn log tuple_arg fld
    data len fuel r :
  CodegenWriteSlot esc td sd = (Some fn, log) ->
  tuple_arg !! field_idx sd = Some fld ->
  slot_fits (type sd) fld = true ->
  (3 <= fuel)%nat ->
  WriteSlot fuel fn tuple_arg data len = Some r ->
  len <> 0 ->
  success r = true ->
  length (tuple_after r) = length tuple_arg
  /\ forall j, j <> field_idx sd -> tuple_after r !! j = tuple_arg !! j.
Proof.
  intros Hgen Hfield Hfits Hfuel Hrun Hlen Hsucc.
  destruct (generated_run esc td sd fn log tuple_arg fld data len fuel
              Hgen Hfield Hfits Hfuel) as (f & Hrun').
  rewrite Hrun in Hrun'. injection Hrun' as ->.
  apply Z.eqb_neq in Hlen. rewrite Hlen in *.
  destruct (parse_fn_enum (type sd)) as [e|]; simpl in *.
  - destruct (snd (StringTo e data len)); simpl in *;
      try discriminate Hsucc;
      (split; [apply length_insert|]);
      intros j Hj; apply list_lookup_insert_ne; congruence.
  - split; [apply length_insert|].
    intros j Hj. apply list_lookup_insert_ne. congruence.
Qed.

End WriteSlot.

Arguments Argument {StructType} idx.
Arguments ConstantInt {StructType} ty v.
Arguments Result {StructType} id.
Arguments UpdateNullFn {NullFn} f.
Arguments IRFn {NullFn} t.
Arguments EvCall {NullFn} fn args.
Arguments EvStore {NullFn} p v.
Arguments MkWriteSlotResult {NullFn} success tuple_after trace.
Arguments success {NullFn} w.
Arguments tuple_after {NullFn} w.
Arguments trace {NullFn} w.
Arguments WriteSlot {StructType NullFn} run_null StringTo fuel f tuple_arg
  data len.
Arguments CodegenWriteSlot {TupleDescriptor StructType NullFn}
  GenerateLlvmStruct CodegenUpdateNull FinalizeFunction escape_char_
  tuple_desc slot_desc.
Arguments i1 {StructType}.
Arguments i32 {StructType}.
Arguments ptr_type {StructType}.
Arguments CondBr {StructType NullFn} cond true_block false_block.
Arguments Ret {StructType NullFn} v.
Arguments MkBasicBlock {StructType NullFn} label instructions.
Arguments MkFunction {StructType NullFn} prototype blocks.
Arguments WriteSlot_prototype {StructType} tuple_type.
Arguments well_formed {StructType NullFn} f.
Arguments emitted_routine {StructType NullFn} tuple_type sd set_null_fn.
Arguments string_routine {StructType NullFn} tuple_type idx set_null_fn.
Arguments scalar_routine {StructType NullFn} tuple_type idx set_null_fn
  fn_enum.

(** ** Facts about the unescaper *)

Section Unescape.

Variable escape_char_ : byte.

Lemma byte_eqb_eq (a b : byte) : Byte.eqb a b = true <-> a = b.
Proof.
  split; [apply Byte.byte_dec_bl | apply Byte.byte_dec_lb].
Qed.

Lemma byte_eqb_neq (a b : byte) : Byte.eqb a b = false <-> a <> b.
Proof.
  rewrite <- byte_eqb_eq. destruct (Byte.eqb a b); split; congruence.
Qed.

Lemma emitted_length_le flag src :
  (length (emitted escape_char_ flag src) <= length src)%nat.
Proof.
  revert flag. induction src as [|c src IH]; intros flag; simpl; [lia|].
  destruct (if Byte.eqb c escape_char_ then negb flag else false); simpl.
  - specialize (IH true). lia.
  - specialize (IH false). lia.
Qed.

(** The loop writes exactly the emitted bytes at the cursor, as long as
    they fit, and touches nothing else. *)
Lemma loop_emitted src : forall st,
  (dest_ptr st + length (emitted escape_char_ (escape_next_char st) src)
     <= length (dest st))%nat ->
  UnescapeString_loop escape_char_ src st =
    Some (MkUnescapeState
            (take (dest_ptr st) (dest st)
               ++ emitted escape_char_ (escape_next_char st) src
               ++ drop (dest_ptr st
                        + length (emitted escape_char_
                                    (escape_next_char st) src))
                       (dest st))
            (dest_ptr st
               + length (emitted escape_char_ (escape_next_char st) src))
            (flag_after escape_char_ (escape_next_char st) src)).
Proof.
  induction src as [|c src IH]; intros [d p f]; simpl; intros Hfit.
  - rewrite Nat.add_0_r, take_drop. reflexivity.
  - unfold UnescapeString_step; simpl.
    destruct (if Byte.eqb c escape_char_ then negb f else false) eqn:Hflag.
    + rewrite IH by (simpl; exact Hfit). reflexivity.
    + simpl in Hfit. unfold write_dest; simpl.
      destruct (decide (p < length d)%nat) as [Hp|Hp]; [|lia].
      rewrite IH by (simpl; rewrite length_insert; lia).
      simpl. f_equal. f_equal; [|lia].
      rewrite take_S_r with (x := c)
        by (apply list_lookup_insert_eq; exact Hp).
      rewrite take_insert_ge by lia.
      rewrite drop_insert_lt by lia.
      rewrite <- app_assoc. simpl.
      rewrite Nat.add_succ_r. reflexivity.
Qed.

(** The loop overruns the destination only when the emitted bytes do not
    fit. *)
Lemma loop_overrun src : forall st,
  (length (dest st)
     < dest_ptr st + length (emitted escape_char_ (escape_next_char st) src))%nat ->
  (dest_ptr st <= length (dest st))%nat ->
  UnescapeString_loop escape_char_ src st = None.
Proof.
  induction src as [|c src IH]; intros [d p f]; simpl; intros Hover Hp.
  - lia.
  - unfold UnescapeString_step; simpl.
    destruct (if Byte.eqb c escape_char_ then negb f else false) eqn:Hflag.
    + apply IH; simpl; assumption.
    + simpl in Hover. unfold write_dest; simpl.
      destruct (decide (p < length d)%nat) as [Hlt|Hlt]; [|reflexivity].
      apply IH; simpl; rewrite length_insert; lia.
Qed.

Lemma loop_app src1 src2 st :
  UnescapeString_loop escape_char_ (src1 ++ src2) st =
    match UnescapeString_loop escape_char_ src1 st with
    | Some st1 => UnescapeString_loop escape_char_ src2 st1
    | None => None
    end.
Proof.
  revert st. induction src1 as [|c src1 IH]; intros st; simpl; [reflexivity|].
  destruct (UnescapeString_step escape_char_ c st); [apply IH|reflexivity].
Qed.

Lemma emitted_no_escape flag src :
  escape_char_ ∉ src -> emitted escape_char_ flag src = src.
Proof.
  revert flag. induction src as [|c src IH]; intros flag Hno; simpl;
    [reflexivity|].
  apply not_elem_of_cons in Hno as [Hc Hsrc].
  assert (Byte.eqb c escape_char_ = false) as ->
    by (apply byte_eqb_neq; congruence).
  f_equal. apply IH, Hsrc.
Qed.

Lemma to_int_small (n : nat) :
  Z.of_nat n <= INT_MAX -> to_int (Z.of_nat n) = Z.of_nat n.
Proof.
  unfold to_int, INT_MAX. intros Hn.
  rewrite Z.mod_small by lia. lia.
Qed.

(** What a call returns when the destination is large enough. *)
Lemma UnescapeString_emitted src dest_buf :
  (length src <= length dest_buf)%nat ->
  Z.of_nat (length src) <= INT_MAX ->
  UnescapeString escape_char_ src dest_buf =
    Some (emitted escape_char_ false src
            ++ drop (length (emitted escape_char_ false src)) dest_buf,
          Z.of_nat (length (emitted escape_char_ false src))).
Proof.
  intros Hfit Hint. unfold UnescapeString.
  pose proof (emitted_length_le false src) as Hle.
  rewrite loop_emitted by (simpl; lia). simpl.
  rewrite to_int_small by lia. reflexivity.
Qed.

Lemma UnescapeString_no_escape src dest_buf :
  escape_char_ ∉ src ->
  (length src <= length dest_buf)%nat ->
  Z.of_nat (length src) <= INT_MAX ->
  UnescapeString escape_char_ src dest_buf =
    Some (src ++ drop (length src) dest_buf, Z.of_nat (length src)).
Proof.
  intros Hno Hfit Hint.
  rewrite UnescapeString_emitted by assumption.
  rewrite emitted_no_escape by assumption. reflexivity.
Qed.

Lemma unescaped_app (out rest : list byte) :
  unescaped (out ++ rest, Z.of_nat (length out)) = out.
Proof.
  unfold unescaped; simpl. rewrite Nat2Z.id. apply take_app_length.
Qed.

(** Two escape bytes in a row, met in any loop state with room for one
    byte: one escape byte is written, the flag is as before. *)
Lemma step_escape_pair st :
  (dest_ptr st < length (dest st))%nat ->
  UnescapeString_loop escape_char_ [escape_char_; escape_char_] st =
    Some (MkUnescapeState (<[dest_ptr st := escape_char_]> (dest st))
                          (S (dest_ptr st)) (escape_next_char st)).
Proof.
  destruct st as [d p f]; simpl; intros Hp.
  pose proof (proj2 (byte_eqb_eq escape_char_ escape_char_) eq_refl) as Heq.
  unfold UnescapeString_step, write_dest; simpl.
  rewrite Heq. destruct f; simpl.
  - destruct (decide (p < length d)%nat); [|lia]. simpl.
    rewrite ?Heq. reflexivity.
  - rewrite ?Heq. simpl.
    destruct (decide (p < length d)%nat); [reflexivity|lia].
Qed.


(** Up to the first escape byte nothing is skipped, and that byte is. *)
Lemma emitted_first_escape pre post :
  escape_char_ ∉ pre ->
  emitted escape_char_ false (pre ++ escape_char_ :: post) =
    pre ++ emitted escape_char_ true post.
Proof.
  induction pre as [|c pre IH]; intros Hno; simpl.
  - assert (Byte.eqb escape_char_ escape_char_ = true) as ->
      by (apply byte_eqb_eq; reflexivity).
    reflexivity.
  - apply not_elem_of_cons in Hno as [Hc Hpre].
    assert (Byte.eqb c escape_char_ = false) as ->
      by (apply byte_eqb_neq; congruence).
    f_equal. apply IH, Hpre.
Qed.

Lemma emitted_shorter src :
  escape_char_ ∈ src ->
  (length (emitted escape_char_ false src) < length src)%nat.
Proof.
  intros Hin. apply list_elem_of_split_l in Hin as (pre & post & -> & Hpre).
  rewrite emitted_first_escape by assumption.
  pose proof (emitted_length_le true post) as Hle.
  rewrite !length_app. simpl. lia.
Qed.

Lemma flag_after_no_escape flag src :
  escape_char_ ∉ src -> flag_after escape_char_ flag src = match src with
                                                            | [] => flag
                                                            | _ => false
                                                            end.
Proof.
  revert flag. induction src as [|c src IH]; intros flag Hno; simpl;
    [reflexivity|].
  apply not_elem_of_cons in Hno as [Hc Hsrc].
  assert (Byte.eqb c escape_char_ = false) as ->
    by (apply byte_eqb_neq; congruence).
  rewrite IH by exact Hsrc. destruct src; reflexivity.
Qed.

(** The loop on a range without escape byte: a plain copy. *)
Lemma loop_no_escape src dest_buf :
  escape_char_ ∉ src ->
  (length src <= length dest_buf)%nat ->
  UnescapeString_loop escape_char_ src (MkUnescapeState dest_buf 0 false) =
    Some (MkUnescapeState (src ++ drop (length src) dest_buf)
                          (length src) false).
Proof.
  intros Hno Hfit.
  rewrite loop_emitted by (simpl; rewrite emitted_no_escape; assumption).
  simpl. rewrite emitted_no_escape by exact Hno.
  rewrite flag_after_no_escape by exact Hno.
  destruct src; reflexivity.
Qed.

(** ** Claims about the unescaper *)

(** C5. On a byte sequence that holds no escape byte, [UnescapeString]
    copies the input to the destination unchanged and the new length is
    the input length. *)
Theorem unescape_identity_without_escape src dest_buf :
  escape_char_ ∉ src ->
  (length src <= length dest_buf)%nat ->
  Z.of_nat (length src) <= INT_MAX ->
  exists d newLen,
    UnescapeString escape_char_ src dest_buf = Some (d, newLen)
    /\ newLen = Z.of_nat (length src)
    /\ unescaped (d, newLen) = src
    /\ drop (length src) d = drop (length src) dest_buf.
Proof.
  intros Hno Hfit Hint.
  exists (src ++ drop (length src) dest_buf), (Z.of_nat (length src)).
  split; [apply UnescapeString_no_escape; assumption|].
  split; [reflexivity|].
  split; [apply unescaped_app|].
  apply drop_app_length.
Qed.

(** Two escape bytes in a row emit one escape byte and leave the flag as
    it was. *)
Lemma emitted_pair flag post :
  emitted escape_char_ flag (escape_char_ :: escape_char_ :: post)
    = escape_char_ :: emitted escape_char_ flag post.
Proof.
  pose proof (proj2 (byte_eqb_eq escape_char_ escape_char_) eq_refl) as Heq.
  cbn [emitted]. rewrite Heq. destruct flag; cbn [negb]; reflexivity.
Qed.

Lemma emitted_app_flag flag a b :
  emitted escape_char_ flag (a ++ b) =
    emitted escape_char_ flag a
      ++ emitted escape_char_ (flag_after escape_char_ flag a) b.
Proof.
  revert flag. induction a as [|c a IH]; intros flag; simpl; [reflexivity|].
  destruct (if Byte.eqb c escape_char_ then negb flag else false);
    rewrite IH; reflexivity.
Qed.

(** The pair in the loop, from the state reached after a prefix. *)
Lemma loop_escape_pair pre post dest_buf :
  (length (pre ++ escape_char_ :: escape_char_ :: post)
     <= length dest_buf)%nat ->
  exists st1,
    UnescapeString_loop escape_char_ pre (MkUnescapeState dest_buf 0 false)
      = Some st1
    /\ (dest_ptr st1 < length (dest st1))%nat
    /\ UnescapeString_loop escape_char_
         (pre ++ escape_char_ :: escape_char_ :: post)
         (MkUnescapeState dest_buf 0 false)
       = UnescapeString_loop escape_char_ post
           (MkUnescapeState (<[dest_ptr st1 := escape_char_]> (dest st1))
                            (S (dest_ptr st1)) (escape_next_char st1)).
Proof.
  intros Hfit. rewrite length_app in Hfit. simpl in Hfit.
  pose proof (emitted_length_le false pre) as Hle.
  pose proof (loop_emitted pre (MkUnescapeState dest_buf 0 false)) as Hpre.
  simpl in Hpre. specialize (Hpre ltac:(lia)).
  eexists. split; [exact Hpre|]. simpl.
  assert (length (emitted escape_char_ false pre)
          < length (emitted escape_char_ false pre
                      ++ drop (length (emitted escape_char_ false pre))
                              dest_buf))%nat as Hroom
    by (rewrite length_app, length_drop; lia).
  split; [exact Hroom|].
  change (escape_char_ :: escape_char_ :: post)
    with ([escape_char_; escape_char_] ++ post).
  rewrite loop_app, Hpre, loop_app, step_escape_pair by exact Hroom.
  reflexivity.
Qed.

(** C6. Wherever two consecutive escape bytes occur in the input (after
    any prefix [pre], before any suffix [post]), the call emits exactly
    one escape byte for the pair. The bytes read back are those of the
    call on [pre], then one escape byte, then what follows the output for
    [pre] in the output of the call on the input without the pair; the
    call on [pre] and the pair alone reads back the output for [pre] and
    one escape byte; and the new length is one more than without the
    pair. *)
Theorem escape_pair_emits_one pre post dest_buf :
  (length (pre ++ escape_char_ :: escape_char_ :: post)
     <= length dest_buf)%nat ->
  Z.of_nat (length (pre ++ escape_char_ :: escape_char_ :: post))
    <= INT_MAX ->
  exists rpre rpair rwithout rwith rest,
    UnescapeString escape_char_ pre dest_buf = Some rpre
    /\ UnescapeString escape_char_ (pre ++ [escape_char_; escape_char_])
         dest_buf = Some rpair
    /\ UnescapeString escape_char_ (pre ++ post) dest_buf = Some rwithout
    /\ UnescapeString escape_char_
         (pre ++ escape_char_ :: escape_char_ :: post) dest_buf = Some rwith
    /\ unescaped rpair = unescaped rpre ++ [escape_char_]
    /\ snd rpair = snd rpre + 1
    /\ unescaped rwithout = unescaped rpre ++ rest
    /\ unescaped rwith = unescaped rpre ++ escape_char_ :: rest
    /\ snd rwith = snd rwithout + 1.
Proof.
  intros Hfit Hint. rewrite length_app in Hfit, Hint.
  simpl in Hfit, Hint.
  set (f := flag_after escape_char_ false pre).
  assert (forall src,
            (length src <= length pre + S (S (length post)))%nat ->
            exists r,
              UnescapeString escape_char_ src dest_buf = Some r
              /\ snd r = Z.of_nat (length (emitted escape_char_ false src))
              /\ unescaped r = emitted escape_char_ false src) as Hcall.
  { intros src Hsrc. eexists.
    split; [apply UnescapeString_emitted; lia|].
    split; [reflexivity|apply unescaped_app]. }
  destruct (Hcall pre) as (rpre & Hrpre & Hnpre & Hopre); [lia|].
  destruct (Hcall (pre ++ [escape_char_; escape_char_]))
    as (rpair & Hrpair & Hnpair & Hopair);
    [rewrite length_app; simpl; lia|].
  destruct (Hcall (pre ++ post)) as (rwithout & Hrwo & Hnwo & Howo);
    [rewrite length_app; lia|].
  destruct (Hcall (pre ++ escape_char_ :: escape_char_ :: post))
    as (rwith & Hrw & Hnw & How);
    [rewrite length_app; simpl; lia|].
  exists rpre, rpair, rwithout, rwith, (emitted escape_char_ f post).
  repeat (split; [assumption|]).
  rewrite emitted_app_flag, emitted_pair in Hnpair, Hopair, Hnw, How.
  rewrite emitted_app_flag in Hnwo, Howo.
  fold f in Hnpair, Hopair, Hnw, How, Hnwo, Howo.
  simpl in Hnpair, Hopair.
  rewrite Hopair, Hnpair, Howo, How, Hnw, Hnwo, Hopre, Hnpre.
  rewrite !length_app. cbn [length].
  split; [reflexivity|]. split; [lia|]. split; [reflexivity|].
  split; [reflexivity|lia].
Qed.


(** C8. When the output of one pass holds no escape byte, a second pass
    over that output returns it unchanged, with the same length. *)
Theorem second_pass_noop src dest_buf d1 n1 dest2 :
  (length src <= length dest_buf)%nat ->
  Z.of_nat (length src) <= INT_MAX ->
  UnescapeString escape_char_ src dest_buf = Some (d1, n1) ->
  escape_char_ ∉ unescaped (d1, n1) ->
  (length (unescaped (d1, n1)) <= length dest2)%nat ->
  exists d2,
    UnescapeString escape_char_ (unescaped (d1, n1)) dest2 = Some (d2, n1)
    /\ unescaped (d2, n1) = unescaped (d1, n1).
Proof.
  intros Hfit Hint Hfirst Hno Hfit2.
  rewrite UnescapeString_emitted in Hfirst by assumption.
  injection Hfirst as <- <-.
  rewrite unescaped_app in *.
  pose proof (emitted_length_le false src) as Hle.
  set (out := emitted escape_char_ false src) in *.
  exists (out ++ drop (length out) dest2).
  split; [apply UnescapeString_no_escape; [assumption|assumption|lia]|].
  apply unescaped_app.
Qed.

(** C9. For every input of length [len] and every destination of at
    least [len] bytes the call returns a result; the new length is
    between 0 and [len]; the destination keeps its size and every byte
    at an offset of [newLen] or more is as the caller left it. *)
Theorem unescape_total_and_bounded src dest_buf :
  (length src <= length dest_buf)%nat ->
  Z.of_nat (length src) <= INT_MAX ->
  exists d newLen,
    UnescapeString escape_char_ src dest_buf = Some (d, newLen)
    /\ 0 <= newLen <= Z.of_nat (length src)
    /\ length d = length dest_buf
    /\ drop (Z.to_nat newLen) d = drop (Z.to_nat newLen) dest_buf.
Proof.
  intros Hfit Hint.
  pose proof (emitted_length_le false src) as Hle.
  set (out := emitted escape_char_ false src) in *.
  exists (out ++ drop (length out) dest_buf), (Z.of_nat (length out)).
  split; [apply UnescapeString_emitted; assumption|].
  split; [lia|].
  rewrite Nat2Z.id. split.
  - rewrite length_app, length_drop. lia.
  - apply drop_app_length.
Qed.

(** The overload that allocates from the pool always meets the contract
    of the three-argument one. *)
Lemma UnescapeStringValue_returns value fresh :
  length fresh = length value ->
  Z.of_nat (length value) <= INT_MAX ->
  exists d newLen,
    UnescapeStringValue escape_char_ value fresh = Some (d, newLen)
    /\ 0 <= newLen <= Z.of_nat (length value).
Proof.
  intros Hlen Hint. unfold UnescapeStringValue.
  destruct (decide (length fresh = length value)); [|contradiction].
  pose proof (emitted_length_le false value) as Hle.
  rewrite UnescapeString_emitted by first [lia | assumption].
  eexists _, _. split; [reflexivity|lia].
Qed.

(** ** Further properties of the unescaper *)

(** What a call returns, through the bytes the caller reads back. *)
Lemma UnescapeString_unescaped src dest_buf :
  (length src <= length dest_buf)%nat ->
  Z.of_nat (length src) <= INT_MAX ->
  exists r,
    UnescapeString escape_char_ src dest_buf = Some r
    /\ snd r = Z.of_nat (length (emitted escape_char_ false src))
    /\ unescaped r = emitted escape_char_ false src.
Proof.
  intros Hfit Hint. eexists. split; [apply UnescapeString_emitted; assumption|].
  split; [reflexivity|apply unescaped_app].
Qed.

Lemma emitted_sublist flag src :
  emitted escape_char_ flag src `sublist_of` src.
Proof.
  revert flag. induction src as [|c src IH]; intros flag; simpl;
    [constructor|].
  destruct (if Byte.eqb c escape_char_ then negb flag else false).
  - apply sublist_cons, IH.
  - apply sublist_skip, IH.
Qed.

Lemma emitted_keeps_other_bytes flag src :
  filter (fun c => c <> escape_char_) (emitted escape_char_ flag src)
    = filter (fun c => c <> escape_char_) src.
Proof.
  revert flag. induction src as [|c src IH]; intros flag; simpl;
    [reflexivity|].
  destruct (Byte.eqb c escape_char_) eqn:Hc.
  - apply byte_eqb_eq in Hc. subst c.
    rewrite (filter_cons_False _ escape_char_ src) by (intros H; apply H; reflexivity).
    destruct (negb flag); [apply IH|].
    rewrite filter_cons_False by (intros H; apply H; reflexivity). apply IH.
  - apply byte_eqb_neq in Hc.
    rewrite !filter_cons_True by exact Hc. f_equal. apply IH.
Qed.

(** No two bytes in a row are skipped. *)
Lemma emitted_at_least_half flag src :
  (length src
     <= 2 * length (emitted escape_char_ flag src)
        + (if flag then 0 else 1))%nat.
Proof.
  revert flag. induction src as [|c src IH]; intros flag; simpl; [lia|].
  destruct (Byte.eqb c escape_char_), flag; simpl.
  - specialize (IH false). simpl in IH. lia.
  - specialize (IH true). simpl in IH. lia.
  - specialize (IH false). simpl in IH. lia.
  - specialize (IH false). simpl in IH. lia.
Qed.

(** A copied escape byte follows a skipped one. *)
Lemma emitted_escape_count flag src :
  (2 * length (filter (fun c => c = escape_char_)
                 (emitted escape_char_ flag src))
     <= length (filter (fun c => c = escape_char_) src)
        + (if flag then 1 else 0))%nat.
Proof.
  revert flag. induction src as [|c src IH]; intros flag; simpl; [lia|].
  destruct (Byte.eqb c escape_char_) eqn:Hc.
  - apply byte_eqb_eq in Hc. subst c.
    rewrite (filter_cons_True _ escape_char_ src) by reflexivity.
    destruct flag; simpl.
    + rewrite filter_cons_True by reflexivity.
      specialize (IH false). simpl in *. lia.
    + specialize (IH true). simpl in *. lia.
  - apply byte_eqb_neq in Hc.
    rewrite !filter_cons_False by (intros H; apply Hc; exact H).
    specialize (IH false). destruct flag; simpl in *; lia.
Qed.

Lemma emitted_app flag a b :
  emitted escape_char_ flag (a ++ b) =
    emitted escape_char_ flag a
      ++ emitted escape_char_ (flag_after escape_char_ flag a) b.
Proof.
  revert flag. induction a as [|c a IH]; intros flag; simpl; [reflexivity|].
  destruct (if Byte.eqb c escape_char_ then negb flag else false);
    rewrite IH; reflexivity.
Qed.

Lemma emitted_run n :
  emitted escape_char_ false (replicate n escape_char_)
    = replicate (Nat.div2 n) escape_char_
  /\ emitted escape_char_ true (replicate n escape_char_)
    = replicate (Nat.div2 (S n)) escape_char_.
Proof.
  pose proof (proj2 (byte_eqb_eq escape_char_ escape_char_) eq_refl) as Heq.
  induction n as [|n [IHf IHt]]; [split; reflexivity|].
  split.
  - cbn [replicate emitted]. rewrite Heq. cbn [negb]. exact IHt.
  - cbn [replicate emitted]. rewrite Heq. cbn [negb]. rewrite IHf.
    reflexivity.
Qed.

Lemma emitted_escaped s :
  emitted escape_char_ false (flat_map (fun c => [escape_char_; c]) s) = s.
Proof.
  pose proof (proj2 (byte_eqb_eq escape_char_ escape_char_) eq_refl) as Heq.
  induction s as [|c s IH]; [reflexivity|].
  cbn [flat_map app emitted]. rewrite Heq. cbn [negb].
  destruct (Byte.eqb c escape_char_); cbn [negb]; rewrite IH; reflexivity.
Qed.

(** X1. The bytes read back after a call are a subsequence of the input:
    nothing is invented and the order is kept. *)
Theorem unescape_output_sublist src dest_buf :
  (length src <= length dest_buf)%nat ->
  Z.of_nat (length src) <= INT_MAX ->
  exists r,
    UnescapeString escape_char_ src dest_buf = Some r
    /\ unescaped r `sublist_of` src.
Proof.
  intros Hfit Hint.
  destruct (UnescapeString_unescaped src dest_buf Hfit Hint)
    as (r & Hr & _ & Hout).
  exists r. split; [exact Hr|]. rewrite Hout. apply emitted_sublist.
Qed.

(** X2. Only escape bytes are ever skipped: the bytes other than the
    escape byte are the same, in the same order, in the input and in the
    output. *)
Theorem unescape_keeps_other_bytes src dest_buf :
  (length src <= length dest_buf)%nat ->
  Z.of_nat (length src) <= INT_MAX ->
  exists r,
    UnescapeString escape_char_ src dest_buf = Some r
    /\ filter (fun c => c <> escape_char_) (unescaped r)
       = filter (fun c => c <> escape_char_) src.
Proof.
  intros Hfit Hint.
  destruct (UnescapeString_unescaped src dest_buf Hfit Hint)
    as (r & Hr & _ & Hout).
  exists r. split; [exact Hr|]. rewrite Hout. apply emitted_keeps_other_bytes.
Qed.

(** X3. The loop never skips two bytes in a row, so the output holds at
    least half of the input: [len <= 2 * newLen + 1]. *)
Theorem unescape_at_least_half src dest_buf :
  (length src <= length dest_buf)%nat ->
  Z.of_nat (length src) <= INT_MAX ->
  exists d newLen,
    UnescapeString escape_char_ src dest_buf = Some (d, newLen)
    /\ Z.of_nat (length src) <= 2 * newLen + 1.
Proof.
  intros Hfit Hint.
  destruct (UnescapeString_unescaped src dest_buf Hfit Hint)
    as ([d n] & Hr & Hn & _).
  exists d, n. split; [exact Hr|]. simpl in Hn.
  pose proof (emitted_at_least_half false src) as Hhalf.
  cbv iota in Hhalf. lia.
Qed.

(** X4. Each escape byte in the output costs two in the input: twice
    the number of escape bytes read back is at most their number in the
    input. *)
Theorem unescape_escape_count src dest_buf :
  (length src <= length dest_buf)%nat ->
  Z.of_nat (length src) <= INT_MAX ->
  exists r,
    UnescapeString escape_char_ src dest_buf = Some r
    /\ (2 * length (filter (fun c => c = escape_char_) (unescaped r))
          <= length (filter (fun c => c = escape_char_) src))%nat.
Proof.
  intros Hfit Hint.
  destruct (UnescapeString_unescaped src dest_buf Hfit Hint)
    as (r & Hr & _ & Hout).
  exists r. split; [exact Hr|]. rewrite Hout.
  pose proof (emitted_escape_count false src) as Hcount.
  cbv iota in Hcount. lia.
Qed.

(** X5. A run of [n] escape bytes is unescaped to [n / 2] escape bytes
    (rounded down): an odd run loses its last byte. *)
Theorem escape_run_halves n dest_buf :
  (n <= length dest_buf)%nat ->
  Z.of_nat n <= INT_MAX ->
  exists d,
    UnescapeString escape_char_ (replicate n escape_char_) dest_buf
      = Some (d, Z.of_nat (Nat.div2 n))
    /\ unescaped (d, Z.of_nat (Nat.div2 n))
       = replicate (Nat.div2 n) escape_char_.
Proof.
  intros Hfit Hint.
  rewrite UnescapeString_emitted by (rewrite length_replicate; assumption).
  rewrite (proj1 (emitted_run n)).
  set (out := replicate (Nat.div2 n) escape_char_).
  assert (length out = Nat.div2 n) as Hout by apply length_replicate.
  rewrite <- Hout.
  eexists. split; [reflexivity|apply unescaped_app].
Qed.

(** X6. Unescaping splits at any point where no escape is pending: when
    the flag is clear after [a], the output for [a ++ b] is the output
    for [a] followed by the output for [b], and the lengths add up. *)
Theorem unescape_app a b dest_buf st1 :
  (length (a ++ b) <= length dest_buf)%nat ->
  Z.of_nat (length (a ++ b)) <= INT_MAX ->
  UnescapeString_loop escape_char_ a (MkUnescapeState dest_buf 0 false)
    = Some st1 ->
  escape_next_char st1 = false ->
  exists ra rb rab,
    UnescapeString escape_char_ a dest_buf = Some ra
    /\ UnescapeString escape_char_ b dest_buf = Some rb
    /\ UnescapeString escape_char_ (a ++ b) dest_buf = Some rab
    /\ unescaped rab = unescaped ra ++ unescaped rb
    /\ snd rab = snd ra + snd rb.
Proof.
  intros Hfit Hint Hloop Hclear. rewrite length_app in Hfit, Hint.
  pose proof (emitted_length_le false a) as Hla.
  rewrite loop_emitted in Hloop by (simpl; lia).
  injection Hloop as <-. simpl in Hclear.
  destruct (UnescapeString_unescaped a dest_buf) as (ra & Hra & Hna & Houta);
    [lia|lia|].
  destruct (UnescapeString_unescaped b dest_buf) as (rb & Hrb & Hnb & Houtb);
    [lia|lia|].
  destruct (UnescapeString_unescaped (a ++ b) dest_buf)
    as (rab & Hrab & Hnab & Houtab);
    [rewrite length_app; lia|rewrite length_app; lia|].
  exists ra, rb, rab. repeat (split; [assumption|]).
  rewrite emitted_app, Hclear in Hnab, Houtab.
  split; [congruence|].
  rewrite Hnab, Hna, Hnb, length_app. lia.
Qed.

(** X7. Round trip: when every byte of [s] is preceded by an escape
    byte, unescaping gives back [s], whatever bytes [s] holds. *)
Theorem unescape_escaped s dest_buf :
  (2 * length s <= length dest_buf)%nat ->
  2 * Z.of_nat (length s) <= INT_MAX ->
  exists d,
    UnescapeString escape_char_
        (flat_map (fun c => [escape_char_; c]) s) dest_buf
      = Some (d, Z.of_nat (length s))
    /\ unescaped (d, Z.of_nat (length s)) = s.
Proof.
  intros Hfit Hint.
  assert (length (flat_map (fun c => [escape_char_; c]) s)
          = (2 * length s)%nat) as Hlen
    by (induction s as [|c s IH]; simpl in *; lia).
  rewrite UnescapeString_emitted by (rewrite Hlen; lia).
  rewrite emitted_escaped.
  eexists. split; [reflexivity|apply unescaped_app].
Qed.

(** X8. The size the destination needs is the contract, not a margin:
    on a source without escape byte and a destination shorter than the
    source, the loop writes past the end of the destination. *)
Theorem unescape_short_destination_overrun src dest_buf :
  escape_char_ ∉ src ->
  (length dest_buf < length src)%nat ->
  UnescapeString escape_char_ src dest_buf = None.
Proof.
  intros Hno Hshort. unfold UnescapeString.
  rewrite loop_overrun; [reflexivity| |simpl; lia].
  simpl. rewrite emitted_no_escape by exact Hno. exact Hshort.
Qed.

(** X9. The overload that takes its destination from the pool always
    returns, and neither the new length nor the bytes read back depend on
    what the pool memory held. *)
Theorem UnescapeStringValue_ignores_pool_content value fresh1 fresh2 :
  length fresh1 = length value ->
  length fresh2 = length value ->
  Z.of_nat (length value) <= INT_MAX ->
  exists r1 r2,
    UnescapeStringValue escape_char_ value fresh1 = Some r1
    /\ UnescapeStringValue escape_char_ value fresh2 = Some r2
    /\ snd r1 = snd r2
    /\ unescaped r1 = unescaped r2.
Proof.
  intros H1 H2 Hint. unfold UnescapeStringValue.
  destruct (decide (length fresh1 = length value)); [|contradiction].
  destruct (decide (length fresh2 = length value)); [|contradiction].
  destruct (UnescapeString_unescaped value fresh1) as (r1 & Hr1 & Hn1 & Ho1);
    [lia|assumption|].
  destruct (UnescapeString_unescaped value fresh2) as (r2 & Hr2 & Hn2 & Ho2);
    [lia|assumption|].
  exists r1, r2. repeat (split; [assumption|]). split; congruence.
Qed.

End Unescape.

(** *** The claims at concrete inputs *)

(** Closes [b ∉ l] for a concrete byte and a concrete list. *)
Ltac absent_byte :=
  let H := fresh "H" in
  unfold unescaped; simpl; intros H;
  repeat (apply elem_of_cons in H as [H|H]; [discriminate H|]);
  apply elem_of_nil in H; exact H.

(** Escape byte [\] (0x5c); the field [hello]. *)
Lemma unescape_identity_without_escape_witness :
  exists d newLen,
    UnescapeString x5c [x68; x65; x6c; x6c; x6f]
                       [x00; x00; x00; x00; x00; x00] = Some (d, newLen)
    /\ newLen = 5
    /\ unescaped (d, newLen) = [x68; x65; x6c; x6c; x6f]
    /\ drop 5 d = [x00].
Proof.
  apply (unescape_identity_without_escape x5c
           [x68; x65; x6c; x6c; x6f] [x00; x00; x00; x00; x00; x00]).
  - absent_byte.
  - simpl. lia.
  - vm_compute. discriminate.
Defined.

(** Input [a\\b]: the call reads back [a\b]; without the pair, [ab]. *)
Lemma escape_pair_emits_one_witness :
  exists rpre rpair rwithout rwith rest,
    UnescapeString x5c [x61] [x00; x00; x00; x00] = Some rpre
    /\ UnescapeString x5c ([x61] ++ [x5c; x5c]) [x00; x00; x00; x00]
       = Some rpair
    /\ UnescapeString x5c ([x61] ++ [x62]) [x00; x00; x00; x00]
       = Some rwithout
    /\ UnescapeString x5c ([x61] ++ x5c :: x5c :: [x62])
         [x00; x00; x00; x00] = Some rwith
    /\ unescaped rpair = unescaped rpre ++ [x5c]
    /\ snd rpair = snd rpre + 1
    /\ unescaped rwithout = unescaped rpre ++ rest
    /\ unescaped rwith = unescaped rpre ++ x5c :: rest
    /\ snd rwith = snd rwithout + 1.
Proof.
  apply (escape_pair_emits_one x5c [x61] [x62] [x00; x00; x00; x00]).
  - simpl. lia.
  - vm_compute. discriminate.
Defined.

Example unescape_pair_between_bytes :
  unescaped <$> UnescapeString x5c [x61; x5c; x5c; x62] [x00; x00; x00; x00]
    = Some [x61; x5c; x62].
Proof. reflexivity. Qed.


(** Input [a\b]: the first pass gives [ab], the second pass leaves it. *)
Lemma second_pass_noop_witness :
  exists d2,
    UnescapeString x5c [x61; x62] [x00; x00] = Some (d2, 2)
    /\ unescaped (d2, 2) = [x61; x62].
Proof.
  apply (second_pass_noop x5c [x61; x5c; x62] [x00; x00; x00]
           [x61; x62; x00] 2 [x00; x00]).
  - simpl. lia.
  - vm_compute. discriminate.
  - reflexivity.
  - absent_byte.
  - simpl. lia.
Defined.

(** Input [a\\b] into a destination of five bytes. *)
Lemma unescape_total_and_bounded_witness :
  exists d newLen,
    UnescapeString x5c [x61; x5c; x5c; x62]
                       [x01; x02; x03; x04; x05] = Some (d, newLen)
    /\ 0 <= newLen <= 4
    /\ length d = 5%nat
    /\ drop (Z.to_nat newLen) d = drop (Z.to_nat newLen)
                                       [x01; x02; x03; x04; x05].
Proof.
  apply (unescape_total_and_bounded x5c [x61; x5c; x5c; x62]
           [x01; x02; x03; x04; x05]).
  - simpl. lia.
  - vm_compute. discriminate.
Defined.

Example unescape_a_backslash :
  unescaped <$> UnescapeString x5c [x61; x5c] [x00; x00] = Some [x61].
Proof. reflexivity. Qed.

Example unescape_pair_run :
  unescaped <$> UnescapeString x5c [x5c; x5c; x5c; x61] [x00; x00; x00; x00]
    = Some [x5c; x61].
Proof. reflexivity. Qed.

(** ** The escape byte 0 *)

Lemma example_FinalizeFunction_keeps {F : Type} (f g : F) :
  example_FinalizeFunction f = Some g -> g = f.
Proof. unfold example_FinalizeFunction. congruence. Qed.

(** C10, as stated, fails: with escape byte 0 not every 0 byte of the
    input is dropped. In the input of two 0 bytes the second one is met
    with the flag set; it clears the flag and is copied. *)
Lemma second_nul_of_pair_is_copied :
  UnescapeString x00 [x00; x00] [x01; x01] = Some ([x00; x01], 1)
  /\ ~ (forall (src dest_buf : list byte) (i : nat) (st : UnescapeState),
          (length src <= length dest_buf)%nat ->
          src !! i = Some x00 ->
          UnescapeString_loop x00 (take i src)
            (MkUnescapeState dest_buf 0 false) = Some st ->
          UnescapeString_step x00 x00 st =
            Some (MkUnescapeState (dest st) (dest_ptr st)
                                  (negb (escape_next_char st)))).
Proof.
  split; [reflexivity|].
  intros Hall.
  specialize (Hall [x00; x00] [x01; x01] 1%nat
                   (MkUnescapeState [x01; x01] 0 true)).
  simpl in Hall.
  specialize (Hall ltac:(lia) eq_refl eq_refl).
  discriminate Hall.
Qed.

(** C10, amended. The generator reads the escape byte 0 as "no escaping":
    for a string slot it does not refuse. The unescaper built with the
    escape byte 0 still treats each 0 byte as an escape byte: met with the
    flag clear it sets the flag and is dropped, met with the flag set it
    clears the flag and is copied. The first 0 byte of an input is
    always dropped, so on an input that holds a 0 byte the output is
    shorter than the input and differs from it. *)
Theorem nul_escape_byte_still_unescapes
    (TupleDescriptor StructType NullFn : Type)
    (GenerateLlvmStruct : TupleDescriptor -> option StructType)
    (CodegenUpdateNull :
       SlotDescriptor -> StructType -> bool -> option NullFn)
    (FinalizeFunction :
       Function StructType NullFn -> option (Function StructType NullFn))
    td sd tuple_type set_null_fn (src dest_buf : list byte) :
  type sd = TYPE_STRING ->
  GenerateLlvmStruct td = Some tuple_type ->
  CodegenUpdateNull sd tuple_type true = Some set_null_fn ->
  x00 ∈ src ->
  (length src <= length dest_buf)%nat ->
  Z.of_nat (length src) <= INT_MAX ->
  CodegenWriteSlot GenerateLlvmStruct CodegenUpdateNull FinalizeFunction
      x00 td sd
    = (FinalizeFunction
         (string_routine tuple_type (field_idx sd) set_null_fn), [])
  /\ (forall st,
        UnescapeString_step x00 x00 st =
          if escape_next_char st
          then write_dest st x00 false
          else Some (MkUnescapeState (dest st) (dest_ptr st) true))
  /\ (exists pre post,
        src = pre ++ x00 :: post
        /\ (x00 ∉ pre)
        /\ UnescapeString_loop x00 (pre ++ [x00])
             (MkUnescapeState dest_buf 0 false)
           = Some (MkUnescapeState (pre ++ drop (length pre) dest_buf)
                                   (length pre) true))
  /\ exists d newLen,
       UnescapeString x00 src dest_buf = Some (d, newLen)
       /\ 0 <= newLen < Z.of_nat (length src)
       /\ unescaped (d, newLen) <> src.
Proof.
  intros Hstr Htype Hnull Hin Hfit Hint.
  split; [|split; [|split]].
  - apply CodegenWriteSlot_supported with (tuple_type := tuple_type)
                                          (set_null_fn := set_null_fn);
      [assumption|assumption| |reflexivity].
    unfold emitted_routine.
    destruct (decide (type sd = TYPE_STRING)); [reflexivity|contradiction].
  - intros [d p f]. unfold UnescapeString_step. simpl.
    destruct f; reflexivity.
  - apply list_elem_of_split_l in Hin as (pre & post & -> & Hpre).
    exists pre, post. split; [reflexivity|]. split; [exact Hpre|].
    rewrite length_app in Hfit. simpl in Hfit.
    rewrite loop_app, loop_no_escape by first [assumption | lia].
    reflexivity.
  - pose proof (emitted_shorter x00 src Hin) as Hshort.
    set (out := emitted x00 false src) in *.
    exists (out ++ drop (length out) dest_buf), (Z.of_nat (length out)).
    split; [apply UnescapeString_emitted; assumption|].
    split; [lia|].
    rewrite unescaped_app. intros Heq. rewrite Heq in Hshort. lia.
Qed.

(** *** The claims about the routine at concrete inputs *)

(** An [int] slot at field 1, the field [123] of three bytes, and a
    field of two bytes the parser rejects. *)
Lemma scalar_slot_parse_outcomes_witness :
  CodegenWriteSlot example_GenerateLlvmStruct example_CodegenUpdateNull
      example_FinalizeFunction x5c tt (MkSlotDescriptor TYPE_INT 1)
    = (Some (scalar_routine tt 1 tt IRFunction.STRING_TO_INT32), [])
  /\ WriteSlot example_run_null example_StringTo 3
       (scalar_routine tt 1 tt IRFunction.STRING_TO_INT32)
       [ScalarField 0; ScalarField 7] 4096 3
     = Some (MkWriteSlotResult true [ScalarField 0; ScalarField 123]
               [EvCall (IRFn IRFunction.STRING_TO_INT32)
                  [PtrVal (DataPtr 4096); IntVal 3; PtrVal (StackPtr 2)];
                EvStore (FieldPtr 1) (IntVal 123)])
  /\ WriteSlot example_run_null example_StringTo 3
       (scalar_routine tt 1 tt IRFunction.STRING_TO_INT32)
       [ScalarField 0; ScalarField 7] 4096 2
     = Some (MkWriteSlotResult false [ScalarField 1; ScalarField 7]
               [EvCall (IRFn IRFunction.STRING_TO_INT32)
                  [PtrVal (DataPtr 4096); IntVal 2; PtrVal (StackPtr 2)];
                EvCall (UpdateNullFn tt) [PtrVal TuplePtr]]).
Proof.
  pose proof (fun len Hlen =>
    scalar_slot_parse_outcomes unit unit unit
      example_GenerateLlvmStruct example_CodegenUpdateNull
      example_run_null example_StringTo example_FinalizeFunction
      example_FinalizeFunction_keeps
      x5c tt (MkSlotDescriptor TYPE_INT 1) IRFunction.STRING_TO_INT32 tt tt
      [ScalarField 0; ScalarField 7] 4096 len 7 3%nat
      ltac:(do 3 apply list_elem_of_further; apply list_elem_of_here)
      eq_refl eq_refl Hlen eq_refl ltac:(lia)) as Hthm.
  split; [|split].
  - exact (proj1 (Hthm 3 ltac:(discriminate))).
  - destruct (Hthm 3 ltac:(discriminate)) as [Hgen Hrun].
    apply (Hrun (scalar_routine tt 1 tt IRFunction.STRING_TO_INT32) []
                Hgen 123).
    reflexivity.
  - destruct (Hthm 2 ltac:(discriminate)) as [Hgen Hrun].
    apply (Hrun (scalar_routine tt 1 tt IRFunction.STRING_TO_INT32) []
                Hgen 0).
    reflexivity.
Defined.

(** The same slot and an empty field. *)
Lemma empty_field_marks_null_witness :
  exists tuple_type set_null_fn,
    example_GenerateLlvmStruct tt = Some tuple_type
    /\ example_CodegenUpdateNull (MkSlotDescriptor TYPE_INT 1) tuple_type true
       = Some set_null_fn
    /\ WriteSlot example_run_null example_StringTo 2
         (scalar_routine tt 1 tt IRFunction.STRING_TO_INT32)
         [ScalarField 0; ScalarField 7] 4096 0
       = Some (MkWriteSlotResult true
                 (example_run_null set_null_fn [ScalarField 0; ScalarField 7])
                 [EvCall (UpdateNullFn set_null_fn) [PtrVal TuplePtr]]).
Proof.
  apply (empty_field_marks_null unit unit unit
           example_GenerateLlvmStruct example_CodegenUpdateNull
           example_run_null example_StringTo example_FinalizeFunction
           example_FinalizeFunction_keeps
           x5c tt (MkSlotDescriptor TYPE_INT 1)
           (scalar_routine tt 1 tt IRFunction.STRING_TO_INT32) []
           [ScalarField 0; ScalarField 7] 4096 2%nat).
  - reflexivity.
  - lia.
Defined.

(** A string slot at field 1 and the field [hello] at address 4096. *)
Lemma string_slot_stores_pointer_and_length_witness :
  WriteSlot example_run_null example_StringTo 2
      (string_routine tt 1 tt) [ScalarField 0; StringField 0 0] 4096 5
    = Some (MkWriteSlotResult true [ScalarField 0; StringField 4096 5]
              [EvStore (SubFieldPtr 1 0) (PtrVal (DataPtr 4096));
               EvStore (SubFieldPtr 1 1) (IntVal 5)]).
Proof.
  apply (string_slot_stores_pointer_and_length unit unit unit
           example_GenerateLlvmStruct example_CodegenUpdateNull
           example_run_null example_StringTo example_FinalizeFunction
           example_FinalizeFunction_keeps
           tt (MkSlotDescriptor TYPE_STRING 1) (string_routine tt 1 tt) []
           [ScalarField 0; StringField 0 0] 4096 5 0 0 2%nat).
  - reflexivity.
  - reflexivity.
  - discriminate.
  - reflexivity.
  - lia.
Defined.

(** A string slot with the escape byte [\]. *)
Lemma escaped_string_slot_refused_witness :
  CodegenWriteSlot example_GenerateLlvmStruct example_CodegenUpdateNull
      example_FinalizeFunction x5c tt (MkSlotDescriptor TYPE_STRING 1)
    = (None,
       [LOG_WARNING "Could not codegen WriteSlot because escape characters are not yet supported."]).
Proof.
  apply (escaped_string_slot_refused unit unit unit
           example_GenerateLlvmStruct example_CodegenUpdateNull
           example_FinalizeFunction x5c tt (MkSlotDescriptor TYPE_STRING 1)).
  - reflexivity.
  - discriminate.
Defined.

(** Escape byte 0, a string slot, and the input [a], 0, [b]. *)
Lemma nul_escape_byte_still_unescapes_witness :
  CodegenWriteSlot example_GenerateLlvmStruct example_CodegenUpdateNull
      example_FinalizeFunction x00 tt (MkSlotDescriptor TYPE_STRING 1)
    = (Some (string_routine tt 1 tt), [])
  /\ exists d newLen,
       UnescapeString x00 [x61; x00; x62] [x01; x01; x01] = Some (d, newLen)
       /\ 0 <= newLen < 3
       /\ unescaped (d, newLen) <> [x61; x00; x62].
Proof.
  destruct (nul_escape_byte_still_unescapes unit unit unit
              example_GenerateLlvmStruct example_CodegenUpdateNull
              example_FinalizeFunction tt (MkSlotDescriptor TYPE_STRING 1)
              tt tt [x61; x00; x62] [x01; x01; x01]
              eq_refl eq_refl eq_refl
              ltac:(apply list_elem_of_further, list_elem_of_here)
              ltac:(simpl; lia) ltac:(vm_compute; discriminate))
    as (Hgen & _ & _ & Hout).
  split; [exact Hgen | exact Hout].
Defined.

(** *** The further properties at concrete inputs *)

(** Input [a\b]. *)
Lemma unescape_output_sublist_witness :
  exists r,
    UnescapeString x5c [x61; x5c; x62] [x00; x00; x00] = Some r
    /\ unescaped r `sublist_of` [x61; x5c; x62].
Proof.
  apply (unescape_output_sublist x5c [x61; x5c; x62] [x00; x00; x00]).
  - simpl. lia.
  - vm_compute. discriminate.
Defined.

Lemma unescape_keeps_other_bytes_witness :
  exists r,
    UnescapeString x5c [x61; x5c; x62] [x00; x00; x00] = Some r
    /\ filter (fun c => c <> x5c) (unescaped r)
       = filter (fun c => c <> x5c) [x61; x5c; x62].
Proof.
  apply (unescape_keeps_other_bytes x5c [x61; x5c; x62] [x00; x00; x00]).
  - simpl. lia.
  - vm_compute. discriminate.
Defined.

(** Input [\a\]: three bytes in, one byte out. *)
Lemma unescape_at_least_half_witness :
  exists d newLen,
    UnescapeString x5c [x5c; x61; x5c] [x00; x00; x00] = Some (d, newLen)
    /\ 3 <= 2 * newLen + 1.
Proof.
  apply (unescape_at_least_half x5c [x5c; x61; x5c] [x00; x00; x00]).
  - simpl. lia.
  - vm_compute. discriminate.
Defined.

(** Input [\\\a]. *)
Lemma unescape_escape_count_witness :
  exists r,
    UnescapeString x5c [x5c; x5c; x5c; x61] [x00; x00; x00; x00] = Some r
    /\ (2 * length (filter (fun c => c = x5c) (unescaped r))
          <= length (filter (fun c => c = x5c) [x5c; x5c; x5c; x61]))%nat.
Proof.
  apply (unescape_escape_count x5c [x5c; x5c; x5c; x61]
           [x00; x00; x00; x00]).
  - simpl. lia.
  - vm_compute. discriminate.
Defined.

(** A run of three escape bytes gives one. *)
Lemma escape_run_halves_witness :
  exists d,
    UnescapeString x5c [x5c; x5c; x5c] [x00; x00; x00] = Some (d, 1)
    /\ unescaped (d, 1) = [x5c].
Proof.
  apply (escape_run_halves x5c 3 [x00; x00; x00]).
  - simpl. lia.
  - vm_compute. discriminate.
Defined.

(** [a] followed by [\b]. *)
Lemma unescape_app_witness :
  exists ra rb rab,
    UnescapeString x5c [x61] [x00; x00; x00] = Some ra
    /\ UnescapeString x5c [x5c; x62] [x00; x00; x00] = Some rb
    /\ UnescapeString x5c ([x61] ++ [x5c; x62]) [x00; x00; x00] = Some rab
    /\ unescaped rab = unescaped ra ++ unescaped rb
    /\ snd rab = snd ra + snd rb.
Proof.
  apply (unescape_app x5c [x61] [x5c; x62] [x00; x00; x00]
           (MkUnescapeState [x61; x00; x00] 1 false)).
  - simpl. lia.
  - vm_compute. discriminate.
  - reflexivity.
  - reflexivity.
Defined.

(** The bytes [a] and [\], each behind an escape byte. *)
Lemma unescape_escaped_witness :
  exists d,
    UnescapeString x5c [x5c; x61; x5c; x5c] [x00; x00; x00; x00]
      = Some (d, 2)
    /\ unescaped (d, 2) = [x61; x5c].
Proof.
  apply (unescape_escaped x5c [x61; x5c] [x00; x00; x00; x00]).
  - simpl. lia.
  - vm_compute. discriminate.
Defined.

(** Two bytes into a destination of one byte. *)
Lemma unescape_short_destination_overrun_witness :
  UnescapeString x5c [x61; x62] [x00] = None.
Proof.
  apply (unescape_short_destination_overrun x5c [x61; x62] [x00]).
  - absent_byte.
  - simpl. lia.
Defined.

Lemma UnescapeStringValue_ignores_pool_content_witness :
  exists r1 r2,
    UnescapeStringValue x5c [x61; x5c; x62] [x00; x00; x00] = Some r1
    /\ UnescapeStringValue x5c [x61; x5c; x62] [x01; x02; x03] = Some r2
    /\ snd r1 = snd r2
    /\ unescaped r1 = unescaped r2.
Proof.
  apply (UnescapeStringValue_ignores_pool_content x5c [x61; x5c; x62]
           [x00; x00; x00] [x01; x02; x03]).
  - reflexivity.
  - reflexivity.
  - vm_compute. discriminate.
Defined.

(** A string slot without escaping: first no struct type, then no
    null-marking routine. *)
Lemma collaborator_failures_witness :
  CodegenWriteSlot example_layout_on_request example_no_update_null
      example_FinalizeFunction x00 false (MkSlotDescriptor TYPE_STRING 1)
    = (None, [])
  /\ CodegenWriteSlot example_layout_on_request example_no_update_null
       example_FinalizeFunction x00 true (MkSlotDescriptor TYPE_STRING 1)
     = (None,
        [LOG_ERROR "Could not codegen WriteSlot because slot update codegen failed."]).
Proof.
  split.
  - apply (proj1 (collaborator_failures bool unit unit
                    example_layout_on_request example_no_update_null
                    example_FinalizeFunction x00 false
                    (MkSlotDescriptor TYPE_STRING 1) (fun _ => eq_refl))).
    reflexivity.
  - apply (proj2 (collaborator_failures bool unit unit
                    example_layout_on_request example_no_update_null
                    example_FinalizeFunction x00 true
                    (MkSlotDescriptor TYPE_STRING 1) (fun _ => eq_refl)) tt).
    + reflexivity.
    + reflexivity.
Defined.

(** An [int] slot with the escape byte [\] and with none. *)
Lemma non_string_slot_ignores_escape_witness :
  CodegenWriteSlot example_GenerateLlvmStruct example_CodegenUpdateNull
      example_FinalizeFunction x5c tt (MkSlotDescriptor TYPE_INT 1)
    = CodegenWriteSlot example_GenerateLlvmStruct example_CodegenUpdateNull
        example_FinalizeFunction x00 tt (MkSlotDescriptor TYPE_INT 1).
Proof.
  apply (non_string_slot_ignores_escape unit unit unit
           example_GenerateLlvmStruct example_CodegenUpdateNull
           example_FinalizeFunction x5c x00 tt (MkSlotDescriptor TYPE_INT 1)).
  discriminate.
Defined.

Lemma generated_routine_well_formed_witness :
  well_formed (scalar_routine tt 1 tt IRFunction.STRING_TO_INT32) = true.
Proof.
  apply (generated_routine_well_formed unit unit unit
           example_GenerateLlvmStruct example_CodegenUpdateNull
           example_FinalizeFunction example_FinalizeFunction_keeps
           x5c tt (MkSlotDescriptor TYPE_INT 1)
           (scalar_routine tt 1 tt IRFunction.STRING_TO_INT32) []).
  reflexivity.
Defined.

Lemma routine_always_returns_witness :
  exists r,
    WriteSlot example_run_null example_StringTo 3
      (scalar_routine tt 1 tt IRFunction.STRING_TO_INT32)
      [ScalarField 0; ScalarField 7] 4096 (-1) = Some r.
Proof.
  apply (routine_always_returns unit unit unit
           example_GenerateLlvmStruct example_CodegenUpdateNull
           example_run_null example_StringTo example_FinalizeFunction
           example_FinalizeFunction_keeps
           x5c tt (MkSlotDescriptor TYPE_INT 1)
           (scalar_routine tt 1 tt IRFunction.STRING_TO_INT32) []
           [ScalarField 0; ScalarField 7] (ScalarField 7) 4096 (-1) 3%nat).
  - reflexivity.
  - reflexivity.
  - reflexivity.
  - lia.
Defined.

(** A field of two bytes, which the example parser rejects. *)
Lemma routine_false_iff_parse_failure_witness :
  success (MkWriteSlotResult false [ScalarField 1; ScalarField 7]
             [EvCall (IRFn IRFunction.STRING_TO_INT32)
                [PtrVal (DataPtr 4096); IntVal 2; PtrVal (StackPtr 2)];
              EvCall (UpdateNullFn tt) [PtrVal TuplePtr]]) = false <->
  2 <> 0
  /\ exists e,
       parse_fn_enum TYPE_INT = Some e
       /\ snd (example_StringTo e 4096 2) = StringParser.PARSE_FAILURE.
Proof.
  apply (routine_false_iff_parse_failure unit unit unit
           example_GenerateLlvmStruct example_CodegenUpdateNull
           example_run_null example_StringTo example_FinalizeFunction
           example_FinalizeFunction_keeps
           x5c tt (MkSlotDescriptor TYPE_INT 1)
           (scalar_routine tt 1 tt IRFunction.STRING_TO_INT32) []
           [ScalarField 0; ScalarField 7] (ScalarField 7) 4096 2 3%nat
           (MkWriteSlotResult false [ScalarField 1; ScalarField 7]
              [EvCall (IRFn IRFunction.STRING_TO_INT32)
                 [PtrVal (DataPtr 4096); IntVal 2; PtrVal (StackPtr 2)];
               EvCall (UpdateNullFn tt) [PtrVal TuplePtr]])).
  - reflexivity.
  - reflexivity.
  - reflexivity.
  - lia.
  - reflexivity.
Defined.

Lemma overflow_is_stored_witness :
  WriteSlot example_run_null example_StringTo_overflow 3
      (scalar_routine tt 1 tt IRFunction.STRING_TO_INT32)
      [ScalarField 0; ScalarField 7] 4096 12
    = Some (MkWriteSlotResult true [ScalarField 0; ScalarField 2147483647]
              [EvCall (IRFn IRFunction.STRING_TO_INT32)
                 [PtrVal (DataPtr 4096); IntVal 12; PtrVal (StackPtr 2)];
               EvStore (FieldPtr 1) (IntVal 2147483647)]).
Proof.
  apply (overflow_is_stored unit unit unit
           example_GenerateLlvmStruct example_CodegenUpdateNull
           example_run_null example_StringTo_overflow
           example_FinalizeFunction example_FinalizeFunction_keeps
           x5c tt (MkSlotDescriptor TYPE_INT 1)
           (scalar_routine tt 1 tt IRFunction.STRING_TO_INT32) []
           [ScalarField 0; ScalarField 7] 4096 12 7
           IRFunction.STRING_TO_INT32 2147483647 3%nat).
  - reflexivity.
  - reflexivity.
  - discriminate.
  - reflexivity.
  - reflexivity.
  - lia.
Defined.

(** A string slot at field 1 of a tuple whose null indicator is set. *)
Lemma successful_write_keeps_other_fields_witness :
  length [ScalarField 1; StringField 4096 5] = 2%nat
  /\ forall j, j <> 1%nat ->
       [ScalarField 1; StringField 4096 5] !! j
       = [ScalarField 1; StringField 0 0] !! j.
Proof.
  apply (successful_write_keeps_other_fields unit unit unit
           example_GenerateLlvmStruct example_CodegenUpdateNull
           example_run_null example_StringTo example_FinalizeFunction
           example_FinalizeFunction_keeps
           x00 tt (MkSlotDescriptor TYPE_STRING 1) (string_routine tt 1 tt) []
           [ScalarField 1; StringField 0 0] (StringField 0 0) 4096 5 3%nat
           (MkWriteSlotResult true [ScalarField 1; StringField 4096 5]
              [EvStore (SubFieldPtr 1 0) (PtrVal (DataPtr 4096));
               EvStore (SubFieldPtr 1 1) (IntVal 5)])).
  - reflexivity.
  - reflexivity.
  - reflexivity.
  - lia.
  - reflexivity.
  - discriminate.
  - reflexivity.
Defined.
